(** * Recipe serializers: nested get-or-create of tags and ingredients

    A shallow embedding of [app/recipe/serializers.py].  The serializer
    methods run against the object-relational mapper, so they are written
    here in a small state-and-exception monad over an explicit database
    value: the tables [Tag] and [Ingredient], the [Recipe] table, and the two
    many-to-many link tables. *)

From Stdlib Require Import ZArith.
From stdpp Require Import base option list gmap sets strings.

Open Scope string_scope.
Open Scope list_scope.
Open Scope nat_scope.

#[local] Set Warnings "-clear-no-such-hyp".

(** ** Data model *)

(** Primary key of a user row. *)
Definition user := nat.

(** Values held by the scalar attributes of a recipe and by the entries of a
    validated payload. *)
Inductive value : Type :=
  | VNone
  | VInt (z : Z)
  | VStr (s : string)
  | VDecimal (coefficient : Z) (places : nat)
  | VUser (u : user).

Global Instance value_eq_dec : EqDecision value.
Proof. solve_decision. Defined.

(** Modelled from the spec: the models [Tag] and [Ingredient] of
    [core.models], which is not among the sources.  Both have the same
    shape: a primary key, the owning user and a name. *)
Record Row : Type := mkRow {
  row_id : nat;
  row_user : user;
  row_name : string;
}.

Global Instance Row_eq_dec : EqDecision Row.
Proof. solve_decision. Defined.

(** A table with an auto-increment primary key; rows are kept in insertion
    order. *)
Record Table : Type := mkTable {
  rows : list Row;
  next_id : nat;
}.

(** A related model as a recipe sees it: its table and the many-to-many
    link table, a set of pairs (recipe id, row id). *)
Record Related : Type := mkRelated {
  table : Table;
  links : gset (nat * nat);
}.

(** Modelled from the spec: the model [Recipe] of [core.models], which is
    not among the sources.  An instance is its primary key and its
    attributes by name (title, time_minutes, price, link, description,
    image), the owning user under the name user. *)
Record Recipe : Type := mkRecipe {
  recipe_id : nat;
  recipe_fields : gmap string value;
}.

Record DB : Type := mkDB {
  recipe_table : gmap nat (gmap string value);
  next_recipe_id : nat;
  db_tags : Related;
  db_ingredients : Related;
}.

(** The two models a recipe is related to. *)
Inductive model : Type := Tag | Ingredient.

Global Instance model_eq_dec : EqDecision model.
Proof. solve_decision. Defined.

Definition related (m : model) (db : DB) : Related :=
  match m with
  | Tag => db_tags db
  | Ingredient => db_ingredients db
  end.

Definition set_related (m : model) (rel : Related) (db : DB) : DB :=
  match m with
  | Tag => mkDB (recipe_table db) (next_recipe_id db) rel (db_ingredients db)
  | Ingredient => mkDB (recipe_table db) (next_recipe_id db) (db_tags db) rel
  end.

(** The dictionary [validated_data] that the serializer hands to [create]
    and [update].  The nested serializers (fields [id], [name], with [id]
    read-only) validate every entry of ['tags'] and ['ingredients'] to a
    dictionary with the single key ['name'], so an entry is its name; the
    key is present or absent, hence the [option].  [vd_fields] holds the
    other keys. *)
Record validated_data : Type := mkValidated {
  vd_tags : option (list string);
  vd_ingredients : option (list string);
  vd_fields : gmap string value;
}.

Definition vd_names (m : model) (vd : validated_data) : option (list string) :=
  match m with
  | Tag => vd_tags vd
  | Ingredient => vd_ingredients vd
  end.

(** ** Exceptions and the monad of database actions *)

Inductive exn : Type :=
  | MultipleObjectsReturned
  | ValidationError
  | PermissionDenied
  | Http404.

Global Instance exn_eq_dec : EqDecision exn.
Proof. solve_decision. Defined.

(** An action ends by returning a value or by raising; in both cases it
    leaves the database as the writes made so far have it. *)
Inductive outcome (A : Type) : Type :=
  | Return (a : A) (db : DB)
  | Raise (e : exn) (db : DB).
Arguments Return {A} a db.
Arguments Raise {A} e db.

Definition final {A} (o : outcome A) : DB :=
  match o with
  | Return _ db => db
  | Raise _ db => db
  end.

Definition M (A : Type) : Type := DB → outcome A.

Global Instance M_ret : MRet M := λ A a db, Return a db.

Global Instance M_bind : MBind M := λ A B f c db,
  match c db with
  | Return a db' => f a db'
  | Raise e db' => Raise e db'
  end.

Definition raise {A} (e : exn) : M A := λ db, Raise e db.

Definition modify (f : DB → DB) : M unit := λ db, Return () (f db).

(** ** The object-relational mapper

    The manager and related-manager methods of the framework that the
    serializer calls, on the tables above. *)

Module ORM.

(** [Model.objects.filter(user=u, name=n)] *)
Definition objects_filter (u : user) (n : string) (t : Table) : list Row :=
  filter (λ r, row_user r = u ∧ row_name r = n) (rows t).

(** [Model.objects.create(user=u, name=n)]: the row takes the next
    primary key. *)
Definition table_create (u : user) (n : string) (t : Table) : Row * Table :=
  let r := mkRow (next_id t) u n in
  (r, mkTable (rows t ++ [r]) (S (next_id t))).

(** [Model.objects.get_or_create(user=u, name=n)] first runs
    [get(user=u, name=n)]: the row when exactly one matches,
    [MultipleObjectsReturned] when several do, and a new row when none
    does. *)
Definition table_get_or_create (u : user) (n : string) (t : Table)
  : exn + Row * Table :=
  match objects_filter u n t with
  | [] => inr (table_create u n t)
  | [r] => inr (r, t)
  | _ :: _ :: _ => inl MultipleObjectsReturned
  end.

Definition objects_get_or_create (m : model) (u : user) (n : string) : M Row :=
  λ db,
    match table_get_or_create u n (table (related m db)) with
    | inr (r, t) => Return r (set_related m (mkRelated t (links (related m db))) db)
    | inl e => Raise e db
    end.

(** [instance.<related>.add(row)]: the link table is a set, adding a
    linked row again changes nothing. *)
Definition m2m_add (m : model) (instance : Recipe) (r : Row) : M unit :=
  modify (λ db,
    let rel := related m db in
    set_related m
      (mkRelated (table rel) ({[ (recipe_id instance, row_id r) ]} ∪ links rel)) db).

(** [instance.<related>.clear()]: removes the links of this recipe and
    nothing else. *)
Definition m2m_clear (m : model) (instance : Recipe) : M unit :=
  modify (λ db,
    let rel := related m db in
    set_related m
      (mkRelated (table rel)
         (filter (λ p, p.1 ≠ recipe_id instance) (links rel))) db).

(** [instance.<related>.all()] *)
Definition m2m_all (m : model) (rid : nat) (db : DB) : list Row :=
  filter (λ r, (rid, row_id r) ∈ links (related m db))
    (rows (table (related m db))).

(** [Recipe.objects.create], called with the keyword arguments [kwargs]. *)
Definition Recipe_objects_create (kwargs : gmap string value) : M Recipe :=
  λ db,
    let pk := next_recipe_id db in
    Return (mkRecipe pk kwargs)
      (mkDB (<[pk := kwargs]> (recipe_table db)) (S pk)
         (db_tags db) (db_ingredients db)).

(** [setattr(instance, attr, v)] *)
Definition setattr (instance : Recipe) (attr : string) (v : value) : Recipe :=
  mkRecipe (recipe_id instance) (<[attr := v]> (recipe_fields instance)).

(** [instance.save()] writes the attributes of the instance to its row. *)
Definition save (instance : Recipe) : M unit :=
  modify (λ db,
    mkDB (<[recipe_id instance := recipe_fields instance]> (recipe_table db))
      (next_recipe_id db) (db_tags db) (db_ingredients db)).

End ORM.

(** ** [RecipeSerializer] *)

Module RecipeSerializer.
Import ORM.

(** [Meta.fields] and [Meta.read_only_fields] *)
Definition Meta_fields : list string :=
  ["id"; "title"; "time_minutes"; "price"; "link"; "tags"; "ingredients"].
Definition Meta_read_only_fields : list string := ["id"].

(** [auth_user] stands for [self.context['request'].user]. *)
Fixpoint _get_or_create_tags (auth_user : user) (tags : list string)
    (instance : Recipe) : M unit :=
  match tags with
  | [] => mret ()
  | tag :: tags' =>
      tag ← objects_get_or_create Tag auth_user tag;
      m2m_add Tag instance tag;;
      _get_or_create_tags auth_user tags' instance
  end.

Fixpoint _get_or_create_ingredients (auth_user : user) (ingredients : list string)
    (instance : Recipe) : M unit :=
  match ingredients with
  | [] => mret ()
  | ingredient :: ingredients' =>
      ingredient ← objects_get_or_create Ingredient auth_user ingredient;
      m2m_add Ingredient instance ingredient;;
      _get_or_create_ingredients auth_user ingredients' instance
  end.

Definition create (auth_user : user) (validated_data : validated_data) : M Recipe :=
  let tags := default [] (vd_tags validated_data) in
  let ingredients := default [] (vd_ingredients validated_data) in
  recipe ← Recipe_objects_create (vd_fields validated_data);
  _get_or_create_tags auth_user tags recipe;;
  _get_or_create_ingredients auth_user ingredients recipe;;
  mret recipe.

Definition update (auth_user : user) (instance : Recipe)
    (validated_data : validated_data) : M Recipe :=
  let tags := vd_tags validated_data in
  let ingredients := vd_ingredients validated_data in
  match tags with
  | Some tags => m2m_clear Tag instance;; _get_or_create_tags auth_user tags instance
  | None => mret ()
  end;;
  match ingredients with
  | Some ingredients =>
      m2m_clear Ingredient instance;;
      _get_or_create_ingredients auth_user ingredients instance
  | None => mret ()
  end;;
  let instance := map_fold (λ attr v i, setattr i attr v) instance
                    (vd_fields validated_data) in
  save instance;;
  mret instance.

End RecipeSerializer.

(** ** [RecipeDetailSerializer] *)

Module RecipeDetailSerializer.

(** [Meta] extends [RecipeSerializer.Meta]. *)
Definition Meta_fields : list string :=
  RecipeSerializer.Meta_fields ++ ["description"; "image"].
Definition Meta_read_only_fields : list string :=
  RecipeSerializer.Meta_read_only_fields.

End RecipeDetailSerializer.

Import ORM RecipeSerializer.

(** ** The shared loop

    [_get_or_create_tags] and [_get_or_create_ingredients] are the same loop
    over two models. *)

Fixpoint get_or_create_all (m : model) (auth_user : user) (names : list string)
    (instance : Recipe) : M unit :=
  match names with
  | [] => mret ()
  | n :: names' =>
      r ← objects_get_or_create m auth_user n;
      m2m_add m instance r;;
      get_or_create_all m auth_user names' instance
  end.

(** ** Well-formed stores *)

Definition row_key (r : Row) : user * string := (row_user r, row_name r).

(** Primary keys are distinct and below the counter; a user has at most one
    row of a given name. *)
Definition table_ok (t : Table) : Prop :=
  NoDup (row_id <$> rows t) ∧
  Forall (λ r, row_id r < next_id t) (rows t) ∧
  NoDup (row_key <$> rows t).

(** Links refer to recipes and rows that have been created. *)
Definition related_ok (next_recipe : nat) (rel : Related) : Prop :=
  table_ok (table rel) ∧
  set_Forall (λ p, p.1 < next_recipe ∧ p.2 < next_id (table rel)) (links rel).

Definition store_ok (db : DB) : Prop :=
  map_Forall (λ pk _, pk < next_recipe_id db) (recipe_table db) ∧
  related_ok (next_recipe_id db) (db_tags db) ∧
  related_ok (next_recipe_id db) (db_ingredients db).

Global Instance table_ok_dec t : Decision (table_ok t).
Proof. unfold table_ok. apply _. Defined.

Global Instance related_ok_dec k rel : Decision (related_ok k rel).
Proof. unfold related_ok. apply _. Defined.

Global Instance store_ok_dec db : Decision (store_ok db).
Proof. unfold store_ok. apply _. Defined.

(** The instance is the row stored under its primary key. *)
Definition loaded (instance : Recipe) (db : DB) : Prop :=
  recipe_table db !! recipe_id instance = Some (recipe_fields instance).

(** What the loop has done to a related model when it returns. *)
Definition resolved (u : user) (names : list string) (rid : nat)
    (rel rel' : Related) : Prop :=
  table_ok (table rel') ∧
  next_id (table rel) ≤ next_id (table rel') ∧
  (∃ new, rows (table rel') = rows (table rel) ++ new ∧
     Forall (λ r, row_user r = u ∧ row_name r ∈ names ∧
                  objects_filter u (row_name r) (table rel) = [] ∧
                  next_id (table rel) ≤ row_id r) new) ∧
  (∀ n, n ∈ names →
     ∃ r, r ∈ rows (table rel') ∧ row_user r = u ∧ row_name r = n) ∧
  (∀ p, p ∈ links rel' ↔
     p ∈ links rel ∨
     ∃ r, r ∈ rows (table rel') ∧ row_user r = u ∧ row_name r ∈ names ∧
          p = (rid, row_id r)).

(** Every row of both models is still there, in place. *)
Definition keeps_rows {A} (c : M A) : Prop :=
  ∀ db m, rows (table (related m db)) `prefix_of`
          rows (table (related m (final (c db)))).

(** A related model after [clear()] on recipe [rid]. *)
Definition cleared (rid : nat) (rel : Related) : Related :=
  mkRelated (table rel) (filter (λ p, p.1 ≠ rid) (links rel)).

(** One of the two guarded blocks of [update]. *)
Definition replace_related (m : model) (u : user) (names : option (list string))
    (instance : Recipe) : M unit :=
  match names with
  | Some names => m2m_clear m instance;; get_or_create_all m u names instance
  | None => mret ()
  end.

(** What [update] has done to a related model when it returns. *)
Definition replaced (u : user) (names : option (list string)) (rid : nat)
    (rel rel' : Related) : Prop :=
  match names with
  | Some names => resolved u names rid (cleared rid rel) rel'
  | None => rel' = rel
  end.

(** ** Validation and the views *)

(** The body of a request: any keys, the entries under tags and ingredients
    given by their names. *)
Record request_data : Type := mkData {
  data_tags : option (list string);
  data_ingredients : option (list string);
  data_fields : gmap string value;
}.

(** The request body without its user key. *)
Definition without_user (data : request_data) : request_data :=
  mkData (data_tags data) (data_ingredients data) (delete "user" (data_fields data)).

(** The fields a serializer reads from a request. *)
Definition writable (fields read_only : list string) : list string :=
  filter (λ f, f ∉ read_only) fields.

(** The writable fields that are not nested serializers. *)
Definition scalar_fields : list string :=
  filter (λ f, f ∉ ["tags"; "ingredients"])
    (writable RecipeDetailSerializer.Meta_fields
       RecipeDetailSerializer.Meta_read_only_fields).

(** The keys of [vd_fields] are writable fields of the serializer, or
    keyword arguments [kwargs] that the caller gave to [save()]. *)
Definition validated (kwargs : list string) (vd : validated_data) : Prop :=
  dom (vd_fields vd) ⊆ list_to_set (scalar_fields ++ kwargs).

Global Instance validated_dec kwargs vd : Decision (validated kwargs vd).
Proof. unfold validated. apply _. Defined.

Section Views.

(** Modelled from the spec: the field declarations of [core.models], which
    is not among the sources, decide which values a field accepts and which
    fields a full payload must have. *)
Variable accepts : string → value → bool.
Variable required : list string.

(** The framework's validation, driven by [Meta]: it reads the declared
    writable fields from the request and nothing else; a required field
    missing from a payload that is not partial, or a value its field does
    not accept, is a validation error. *)
Definition to_internal_value (fields read_only : list string) (partial : bool)
    (data : request_data) : M validated_data :=
  let declared := writable fields read_only in
  let nested (f : string) (names : option (list string)) :=
    if decide (f ∈ declared) then names else None in
  let tags := nested "tags" (data_tags data) in
  let ingredients := nested "ingredients" (data_ingredients data) in
  let scalars :=
    filter (λ kv, kv.1 ∈ declared ∧ kv.1 ∉ ["tags"; "ingredients"])
      (data_fields data) in
  let missing :=
    filter (λ f, f ∈ declared ∧ data_fields data !! f = None) required in
  if negb partial && bool_decide (missing ≠ []) then raise ValidationError
  else if bool_decide (map_Forall (λ f v, accepts f v) scalars ∧
                       Forall (λ n, accepts "name" (VStr n))
                         (default [] tags ++ default [] ingredients))
  then mret (mkValidated tags ingredients scalars)
  else raise ValidationError.

(** Modelled from the spec: the recipe views of [recipe/views.py], which is
    not among the sources.  Detail requests are scoped to the recipes of the
    requester and answer not-found for any other primary key.  In the views
    below [fields] and [read_only] are the [Meta] of the serializer class
    the view uses. *)
Definition get_object (auth : user) (pk : nat) : M Recipe := λ db,
  match recipe_table db !! pk with
  | Some fields =>
      if decide (fields !! "user" = Some (VUser auth))
      then Return (mkRecipe pk fields) db
      else Raise Http404 db
  | None => Raise Http404 db
  end.

(** Modelled from the spec: the retrieve action of [recipe/views.py]. *)
Definition view_retrieve (auth : user) (pk : nat) : M Recipe :=
  get_object auth pk.

(** Modelled from the spec: the update and partial-update actions of
    [recipe/views.py]: look the recipe up, validate the body, and let the
    serializer update it. *)
Definition view_update (fields read_only : list string) (partial : bool)
    (auth : user) (pk : nat) (data : request_data) : M Recipe :=
  instance ← get_object auth pk;
  vd ← to_internal_value fields read_only partial data;
  update auth instance vd.

(** Modelled from the spec: the delete action of [recipe/views.py]; the
    links of the deleted recipe go with it. *)
Definition view_destroy (auth : user) (pk : nat) : M unit :=
  instance ← get_object auth pk;
  modify (λ db,
    mkDB (delete (recipe_id instance) (recipe_table db)) (next_recipe_id db)
      (cleared (recipe_id instance) (db_tags db))
      (cleared (recipe_id instance) (db_ingredients db))).

(** Modelled from the spec: the create action of [recipe/views.py]: the
    serializer is saved with the requester as the keyword argument user,
    which [save()] merges into the validated data. *)
Definition view_create (fields read_only : list string) (auth : user)
    (data : request_data) : M Recipe :=
  vd ← to_internal_value fields read_only false data;
  create auth
    (mkValidated (vd_tags vd) (vd_ingredients vd)
       (<["user" := VUser auth]> (vd_fields vd))).

End Views.

(** ** Ownership *)

(** Every tag and every ingredient of recipe [rid] is a row of user [u]. *)
Definition owned_by (u : user) (rid : nat) (db : DB) : Prop :=
  ∀ m r, r ∈ m2m_all m rid db → row_user r = u.

(** ** Reachable stores *)

Definition empty_db : DB :=
  mkDB ∅ 0 (mkRelated (mkTable [] 0) ∅) (mkRelated (mkTable [] 0) ∅).

(** The stores that the recipe operations build from the empty database:
    create, update of a stored recipe, and delete. *)
Inductive reachable : DB → Prop :=
  | reachable_empty : reachable empty_db
  | reachable_create auth vd db recipe db' :
      reachable db →
      create auth vd db = Return recipe db' →
      reachable db'
  | reachable_update auth instance vd db instance' db' :
      reachable db →
      is_Some (recipe_table db !! recipe_id instance) →
      update auth instance vd db = Return instance' db' →
      reachable db'
  | reachable_destroy auth pk db db' :
      reachable db →
      view_destroy auth pk db = Return () db' →
      reachable db'.

(** ** Sample stores and payloads, after the test suite *)

Module Sample.

(** An empty database. *)
Definition empty : DB := empty_db.

(** User 1 has the tag Indian and no recipe. *)
Definition with_indian : DB :=
  mkDB ∅ 0 (mkRelated (mkTable [mkRow 0 1 "Indian"] 1) ∅)
    (mkRelated (mkTable [] 0) ∅).

Definition sample_fields : gmap string value :=
  {[ "title" := VStr "Sample recipe title";
     "time_minutes" := VInt 22;
     "price" := VDecimal 525 2;
     "description" := VStr "Sample recipe description";
     "link" := VStr "https://example.com/recipe.pdf";
     "user" := VUser 1 ]}.

(** User 1 has a recipe with the tag Breakfast and the ingredient Salt, and
    the tag Lunch; user 2 has a recipe without tags. *)
Definition with_recipes : DB :=
  mkDB {[ 0 := sample_fields; 1 := <["user" := VUser 2]> sample_fields ]} 2
    (mkRelated (mkTable [mkRow 0 1 "Breakfast"; mkRow 1 1 "Lunch"] 2) {[ (0, 0) ]})
    (mkRelated (mkTable [mkRow 0 1 "Salt"] 1) {[ (0, 0) ]}).

Definition recipe0 : Recipe := mkRecipe 0 sample_fields.

(** Two rows of user 1 carry the same name. *)
Definition with_duplicates : DB :=
  mkDB ∅ 0 (mkRelated (mkTable [mkRow 0 1 "Thai"; mkRow 1 1 "Thai"] 2) ∅)
    (mkRelated (mkTable [] 0) ∅).

(** Validated data of a create, the owning user added by the view. *)
Definition curry : validated_data :=
  mkValidated (Some ["Thai"; "Dinner"]) None
    {[ "title" := VStr "Thai Prawn Curry"; "time_minutes" := VInt 30;
       "price" := VDecimal 250 2;
       "description" := VStr "Sample recipe description"; "user" := VUser 1 ]}.

Definition pongal : validated_data :=
  mkValidated (Some ["Indian"; "Breakfast"]) None
    {[ "title" := VStr "Pongal"; "time_minutes" := VInt 60;
       "price" := VDecimal 450 2;
       "description" := VStr "Sample recipe description"; "user" := VUser 1 ]}.

(** The same name twice in one list. *)
Definition thai_twice : validated_data :=
  mkValidated (Some ["Thai"; "Thai"]) None
    {[ "title" := VStr "Thai Prawn Curry"; "time_minutes" := VInt 30;
       "price" := VDecimal 250 2;
       "description" := VStr "Sample recipe description"; "user" := VUser 1 ]}.

(** Validated data of partial updates. *)
Definition patch_title : validated_data :=
  mkValidated None None {[ "title" := VStr "New recipe title" ]}.

Definition patch_lunch : validated_data :=
  mkValidated (Some ["Lunch"]) None ∅.

Definition patch_clear : validated_data :=
  mkValidated (Some []) None ∅.

(** Request bodies. *)
Definition body_user : request_data :=
  mkData None None {[ "user" := VUser 2 ]}.

Definition body_title : request_data :=
  mkData None None {[ "title" := VStr "New recipe title" ]}.

Definition accepts_all (f : string) (v : value) : bool := true.

Definition required_fields : list string := ["title"; "time_minutes"; "price"].

End Sample.

(** ** When the loop returns, and what it appends *)

(** Every name of the list has at most one row of user [u]: [get()] finds
    one row or none. *)
Definition resolvable (u : user) (names : list string) (t : Table) : Prop :=
  Forall (λ n, length (objects_filter u n t) ≤ 1) names.

Global Instance resolvable_dec u names t : Decision (resolvable u names t).
Proof. unfold resolvable. apply _. Defined.

(** Table [t'] is table [t] with rows of user [u] appended, named in
    [names], no more of them than [names] has entries, and the counter
    moved by as many. *)
Definition appended (u : user) (names : list string) (t t' : Table) : Prop :=
  ∃ new,
    rows t' = rows t ++ new ∧
    next_id t' = next_id t + length new ∧
    Forall (λ r, row_user r = u ∧ row_name r ∈ names) new ∧
    length new ≤ length names.

(** The links of [rel'] are those of [rel] and links of recipe [rid]. *)
Definition linked_more (rid : nat) (rel rel' : Related) : Prop :=
  links rel ⊆ links rel' ∧
  ∀ p, p ∈ links rel' → p ∈ links rel ∨ p.1 = rid.

(** ** The other serializers *)

Module TagSerializer.

Definition Meta_fields : list string := ["id"; "name"].
Definition Meta_read_only_fields : list string := ["id"].

End TagSerializer.

Module IngredientSerializer.

Definition Meta_fields : list string := ["id"; "name"].
Definition Meta_read_only_fields : list string := ["id"].

End IngredientSerializer.

Module RecipeImageSerializer.

Definition Meta_fields : list string := ["id"; "image"].
Definition Meta_read_only_fields : list string := ["id"].

(** [extra_kwargs]: the fields it marks required. *)
Definition Meta_extra_required : list string := ["image"].

End RecipeImageSerializer.


(** ** The helper of the test suite *)

Module TestHelpers.

(** The [defaults] dictionary of [create_recipe]. *)
Definition defaults : gmap string value :=
  {[ "title" := VStr "Sample Recipe";
     "time_minutes" := VInt 22;
     "price" := VDecimal 525 2;
     "description" := VStr "Sample recipe description";
     "link" := VStr "https://example.com/recipe.pdf" ]}.

(** [create_recipe(user, params)]: [defaults.update(params)], then
    [Recipe.objects.create] with the keyword [user] and the entries of
    [defaults].  A [params] with the key user gives the keyword twice, a
    [TypeError] of the call itself, before any database access: [None]. *)
Definition create_recipe (user : user) (params : gmap string value)
    : option (M Recipe) :=
  let defaults := params ∪ defaults in
  if decide (is_Some (defaults !! "user")) then None
  else Some (Recipe_objects_create (<["user" := VUser user]> defaults)).

End TestHelpers.

(** ** More sample data *)

Module SampleMore.

(** The store of [Sample.with_duplicates] with a recipe of user 1. *)
Definition duplicates_with_recipe : DB :=
  mkDB {[ 0 := Sample.sample_fields ]} 1
    (mkRelated (mkTable [mkRow 0 1 "Thai"; mkRow 1 1 "Thai"] 2) {[ (0, 0) ]})
    (mkRelated (mkTable [mkRow 0 1 "Salt"] 1) {[ (0, 0) ]}).

Definition patch_thai : validated_data :=
  mkValidated (Some ["Thai"]) None {[ "title" := VStr "New recipe title" ]}.

Definition patch_both : validated_data :=
  mkValidated (Some ["Lunch"; "Dinner"]) (Some ["Salt"; "Pepper"])
    {[ "title" := VStr "New recipe title" ]}.

Definition patch_breakfast_lunch : validated_data :=
  mkValidated (Some ["Lunch"; "Breakfast"]) None ∅.

Definition params_title_link : gmap string value :=
  {[ "title" := VStr "Sample recipe title";
     "link" := VStr "https://example.com/recipe.pdf" ]}.

Definition body_image : request_data :=
  mkData None None {[ "image" := VStr "recipe.jpg"; "title" := VStr "x" ]}.

Definition body_no_image : request_data :=
  mkData None None {[ "title" := VStr "x" ]}.


End SampleMore.

(** * Proofs *)

(** ** Running actions *)

Lemma related_set_related m rel db : related m (set_related m rel db) = rel.
Proof. by destruct m. Qed.

Lemma related_set_related_ne m m' rel db :
  m ≠ m' → related m' (set_related m rel db) = related m' db.
Proof. by destruct m, m'. Qed.

Lemma set_related_twice m rel rel' db :
  set_related m rel' (set_related m rel db) = set_related m rel' db.
Proof. by destruct m. Qed.

Lemma set_related_id m db : set_related m (related m db) db = db.
Proof. by destruct m, db. Qed.

Lemma _get_or_create_tags_eq u names instance :
  _get_or_create_tags u names instance = get_or_create_all Tag u names instance.
Proof. induction names as [|n names IH]; simpl; [done | by rewrite IH]. Qed.

Lemma _get_or_create_ingredients_eq u names instance :
  _get_or_create_ingredients u names instance
  = get_or_create_all Ingredient u names instance.
Proof. induction names as [|n names IH]; simpl; [done | by rewrite IH]. Qed.

(** ** Tables *)

Lemma NoDup_fmap_eq {A B} (f : A → B) (l : list A) x y :
  NoDup (f <$> l) → x ∈ l → y ∈ l → f x = f y → x = y.
Proof.
  intros Hnd [i Hi]%list_elem_of_lookup [j Hj]%list_elem_of_lookup Hf.
  assert (i = j) as ->; [|congruence].
  eapply NoDup_lookup; [exact Hnd| |]; rewrite list_lookup_fmap.
  - by rewrite Hi.
  - rewrite Hj. simpl. by rewrite Hf.
Qed.

Lemma NoDup_all_eq {A} (l : list A) x :
  NoDup l → (∀ y, y ∈ l → y = x) → l = [] ∨ l = [x].
Proof.
  intros Hnd Hall. destruct l as [|a [|b l]]; [by left| |].
  - right. f_equal. apply Hall. set_solver.
  - exfalso. assert (a = x) as -> by (apply Hall; set_solver).
    assert (b = x) as -> by (apply Hall; set_solver).
    apply NoDup_cons in Hnd as [Hnd _]. set_solver.
Qed.

Lemma table_ok_rows_NoDup t : table_ok t → NoDup (rows t).
Proof. intros (Hid & _). by eapply NoDup_fmap_1. Qed.

Lemma elem_of_objects_filter u n t r :
  r ∈ objects_filter u n t ↔ r ∈ rows t ∧ row_user r = u ∧ row_name r = n.
Proof. unfold objects_filter. rewrite list_elem_of_filter. tauto. Qed.

Lemma objects_filter_unique u n t :
  table_ok t → objects_filter u n t = [] ∨ ∃ r, objects_filter u n t = [r].
Proof.
  intros Hok.
  destruct (objects_filter u n t) as [|r l] eqn:E; [by left|right].
  exists r.
  destruct (NoDup_all_eq (objects_filter u n t) r) as [H|H].
  - unfold objects_filter. apply NoDup_filter. by apply table_ok_rows_NoDup.
  - intros y Hy. assert (r ∈ objects_filter u n t) as Hr by (rewrite E; set_solver).
    apply elem_of_objects_filter in Hy as (Hy & Hyu & Hyn).
    apply elem_of_objects_filter in Hr as (Hr & Hru & Hrn).
    destruct Hok as (_ & _ & Hkey).
    eapply (NoDup_fmap_eq row_key); eauto. unfold row_key. congruence.
  - congruence.
  - congruence.
Qed.

Lemma objects_filter_member t r :
  table_ok t → r ∈ rows t → objects_filter (row_user r) (row_name r) t = [r].
Proof.
  intros Hok Hr.
  assert (r ∈ objects_filter (row_user r) (row_name r) t) as Hin
    by by apply elem_of_objects_filter.
  destruct (objects_filter_unique (row_user r) (row_name r) t Hok) as [E|[r' E]].
  - rewrite E in Hin. by apply not_elem_of_nil in Hin.
  - rewrite E in Hin |- *. by apply list_elem_of_singleton in Hin as ->.
Qed.

Lemma objects_filter_app u n t t' new :
  rows t' = rows t ++ new →
  objects_filter u n t' =
  objects_filter u n t ++ filter (λ r, row_user r = u ∧ row_name r = n) new.
Proof. unfold objects_filter. intros ->. by rewrite filter_app. Qed.

Lemma objects_filter_nil_app u n t t' new :
  rows t' = rows t ++ new → objects_filter u n t' = [] → objects_filter u n t = [].
Proof.
  intros Hrows. rewrite (objects_filter_app _ _ _ _ _ Hrows).
  by intros [? _]%app_eq_nil.
Qed.

Lemma table_create_ok u n t :
  table_ok t → objects_filter u n t = [] → table_ok (table_create u n t).2.
Proof.
  intros (Hid & Hlt & Hkey) Hnone. unfold table_ok, table_create. simpl.
  rewrite !fmap_app. simpl. split_and!.
  - apply NoDup_app. split_and!; [done| |apply NoDup_singleton].
    intros x [r [-> Hr]]%list_elem_of_fmap Heq%list_elem_of_singleton.
    rewrite Forall_forall in Hlt. specialize (Hlt r Hr). lia.
  - apply Forall_app. split.
    + eapply Forall_impl; [exact Hlt|]. simpl. lia.
    + apply Forall_singleton. simpl. lia.
  - apply NoDup_app. split_and!; [done| |apply NoDup_singleton].
    intros x [r [-> Hr]]%list_elem_of_fmap Heq%list_elem_of_singleton.
    unfold row_key in Heq. simpl in Heq. simplify_eq.
    assert (r ∈ objects_filter (row_user r) (row_name r) t) as Hin
      by by apply elem_of_objects_filter.
    rewrite Hnone in Hin. by apply not_elem_of_nil in Hin.
Qed.

(** One call of get-or-create on a well-formed table. *)
Lemma table_get_or_create_ok u n t :
  table_ok t →
  ∃ r t' new,
    table_get_or_create u n t = inr (r, t') ∧
    table_ok t' ∧
    next_id t ≤ next_id t' ∧
    rows t' = rows t ++ new ∧
    r ∈ rows t' ∧ row_user r = u ∧ row_name r = n ∧
    (new = [] ∨ (new = [r] ∧ objects_filter u n t = [] ∧ row_id r = next_id t)).
Proof.
  intros Hok. unfold table_get_or_create.
  destruct (objects_filter_unique u n t Hok) as [E|[r E]]; rewrite E.
  - exists (mkRow (next_id t) u n), (table_create u n t).2, [mkRow (next_id t) u n].
    split_and!; try done.
    + by apply table_create_ok.
    + simpl. lia.
    + simpl. set_solver.
    + by right.
  - assert (r ∈ objects_filter u n t) as Hr by (rewrite E; set_solver).
    apply elem_of_objects_filter in Hr as (Hr & Hu & Hn).
    exists r, t, []. rewrite app_nil_r. split_and!; try done. by left.
Qed.

(** ** The loop *)

Lemma run_bind {A B} (c : M A) (f : A → M B) db :
  (c ≫= f) db =
  match c db with
  | Return a db' => f a db'
  | Raise e db' => Raise e db'
  end.
Proof. done. Qed.

Lemma run_get_or_create_add m u n instance db r t' :
  table_get_or_create u n (table (related m db)) = inr (r, t') →
  (objects_get_or_create m u n ≫= λ r, m2m_add m instance r) db =
  Return () (set_related m
    (mkRelated t' ({[ (recipe_id instance, row_id r) ]} ∪ links (related m db))) db).
Proof.
  intros E. rewrite run_bind. unfold objects_get_or_create. rewrite E.
  unfold m2m_add, modify. by rewrite !related_set_related, set_related_twice.
Qed.

Lemma get_or_create_all_cons m u n names instance db :
  get_or_create_all m u (n :: names) instance db =
  match (objects_get_or_create m u n ≫= λ r, m2m_add m instance r) db with
  | Return _ db' => get_or_create_all m u names instance db'
  | Raise e db' => Raise e db'
  end.
Proof.
  simpl. rewrite !run_bind. destruct (objects_get_or_create m u n db); [|done].
  by rewrite run_bind.
Qed.

Lemma get_or_create_all_run m u names instance db :
  table_ok (table (related m db)) →
  ∃ rel',
    get_or_create_all m u names instance db = Return () (set_related m rel' db) ∧
    resolved u names (recipe_id instance) (related m db) rel'.
Proof.
  revert db. induction names as [|n names IH]; intros db Hok.
  - exists (related m db). rewrite set_related_id. split; [done|].
    split_and!; [done|done|exists []; by rewrite app_nil_r| |].
    + by intros n ?%not_elem_of_nil.
    + intros p. split; [by left|].
      by intros [?|(r & _ & _ & ?%not_elem_of_nil & _)].
  - destruct (table_get_or_create_ok u n _ Hok)
      as (r & t' & new & E & Hok' & Hle & Hrows & Hr & Hu & Hn & Hnew).
    rewrite get_or_create_all_cons, (run_get_or_create_add _ _ _ _ _ _ _ E).
    set (rel1 := mkRelated t' _).
    destruct (IH (set_related m rel1 db)) as (rel' & Hrun & Hres).
    { by rewrite related_set_related. }
    rewrite related_set_related in Hres.
    destruct Hres as (Hok'' & Hle' & (new' & Hrows' & Hnew') & Hall & Hlinks).
    simpl in Hle'.
    exists rel'. rewrite Hrun, set_related_twice. split; [done|].
    split_and!; [done|lia| | |].
    + exists (new ++ new'). simpl in Hrows'. rewrite Hrows', Hrows, (assoc_L (++)).
      split; [done|]. apply Forall_app. split.
      * destruct Hnew as [->|(-> & Hnone & Hid)]; [done|].
        apply Forall_singleton. rewrite Hu, Hn.
        split_and!; [done|set_solver|done|lia].
      * eapply Forall_impl; [exact Hnew'|]. intros x (Hxu & Hxn & Hx & Hxid).
        simpl in Hx, Hxid.
        split_and!; [done|set_solver| |lia]. by eapply objects_filter_nil_app.
    + intros n' [->|Hn']%elem_of_cons; [|by apply Hall].
      exists r. split_and!; [|done|done]. simpl in Hrows'. rewrite Hrows'. set_solver.
    + intros p. rewrite Hlinks. simpl.
      assert (r ∈ rows (table rel')) as Hr' by (simpl in Hrows'; rewrite Hrows'; set_solver).
      split.
      * intros [[->%elem_of_singleton|Hp]%elem_of_union|(x & Hx & Hxu & Hxn & ->)].
        -- right. exists r. rewrite Hn. split_and!; [done|done|set_solver|done].
        -- by left.
        -- right. exists x. split_and!; [done|done|set_solver|done].
      * intros [Hp|(x & Hx & Hxu & [Hxn|Hxn]%elem_of_cons & ->)].
        -- left. set_solver.
        -- left. assert (x = r) as ->; [|set_solver].
           destruct Hok'' as (_ & _ & Hkey).
           eapply (NoDup_fmap_eq row_key); eauto. unfold row_key. congruence.
        -- right. by exists x.
Qed.

(** The loop leaves the rows of both models in place, also when it raises. *)
Lemma keeps_rows_ret {A} (a : A) : keeps_rows (mret a).
Proof. by intros db m. Qed.

Lemma keeps_rows_bind {A B} (c : M A) (f : A → M B) :
  keeps_rows c → (∀ a, keeps_rows (f a)) → keeps_rows (c ≫= f).
Proof.
  intros Hc Hf db m. rewrite run_bind. specialize (Hc db m).
  destruct (c db) as [a db'|e db']; simpl in *; [|done].
  etrans; [exact Hc|]. apply Hf.
Qed.

Lemma keeps_rows_modify (f : DB → DB) :
  (∀ db m, table (related m (f db)) = table (related m db)) →
  keeps_rows (modify f).
Proof. intros Hf db m. unfold modify. simpl. by rewrite Hf. Qed.

Lemma keeps_rows_objects_get_or_create m u n :
  keeps_rows (objects_get_or_create m u n).
Proof.
  intros db m'. unfold objects_get_or_create, table_get_or_create.
  destruct (objects_filter u n _) as [|r [|r' l]]; simpl; [|by destruct m, m'|done].
  destruct (decide (m = m')) as [->|Hne].
  - rewrite related_set_related. simpl. by apply prefix_app_r.
  - by rewrite related_set_related_ne.
Qed.

Lemma keeps_rows_m2m_add m instance r : keeps_rows (m2m_add m instance r).
Proof. apply keeps_rows_modify. intros db m'. by destruct m, m'. Qed.

Lemma keeps_rows_m2m_clear m instance : keeps_rows (m2m_clear m instance).
Proof. apply keeps_rows_modify. intros db m'. by destruct m, m'. Qed.

Lemma keeps_rows_save instance : keeps_rows (save instance).
Proof. apply keeps_rows_modify. by intros db []. Qed.

Lemma keeps_rows_get_or_create_all m u names instance :
  keeps_rows (get_or_create_all m u names instance).
Proof.
  induction names as [|n names IH]; simpl; [apply keeps_rows_ret|].
  apply keeps_rows_bind; [apply keeps_rows_objects_get_or_create|intros r].
  apply keeps_rows_bind; [apply keeps_rows_m2m_add|by intros _].
Qed.

(** ** Consequences of [resolved] *)

(** The links of a recipe that had none are exactly the rows of the user
    whose names were given. *)
Lemma resolved_all u names rid rel rel' r :
  resolved u names rid rel rel' →
  (∀ x, (rid, x) ∉ links rel) →
  r ∈ filter (λ r, (rid, row_id r) ∈ links rel') (rows (table rel')) ↔
  r ∈ rows (table rel') ∧ row_user r = u ∧ row_name r ∈ names.
Proof.
  intros (Hok & _ & _ & _ & Hlinks) Hfresh. rewrite list_elem_of_filter, Hlinks. split.
  - intros [[Hl|(x & Hx & Hxu & Hxn & Heq)] Hr]; [by apply Hfresh in Hl|].
    assert (r = x) as ->; [|done].
    destruct Hok as (Hid & _). eapply (NoDup_fmap_eq row_id); eauto. congruence.
  - intros (Hr & Hu & Hn). split; [|done]. right. by exists r.
Qed.

(** Every given name ends with exactly one row of the user, linked to the
    recipe: the row that was there, or else a new one. *)
Lemma resolved_lookup u names rid rel rel' n :
  resolved u names rid rel rel' → table_ok (table rel) → n ∈ names →
  ∃ r, objects_filter u n (table rel') = [r] ∧
       (rid, row_id r) ∈ links rel' ∧
       (objects_filter u n (table rel) = [r] ∨
        (objects_filter u n (table rel) = [] ∧ r ∉ rows (table rel))).
Proof.
  intros (Hok' & _ & (new & Hrows & Hnew) & Hall & Hlinks) Hok Hn.
  destruct (Hall n Hn) as (r & Hr & Hu & Hrn). exists r. split_and!.
  - rewrite <-Hu, <-Hrn. by apply objects_filter_member.
  - apply Hlinks. right. exists r. by rewrite Hrn.
  - destruct (objects_filter_unique u n (table rel) Hok) as [E|[r0 E]].
    + right. split; [done|]. intros Hin.
      assert (r ∈ objects_filter u n (table rel)) as Hin'
        by by apply elem_of_objects_filter.
      rewrite E in Hin'. by apply not_elem_of_nil in Hin'.
    + left. rewrite E. f_equal.
      assert (r0 ∈ objects_filter u n (table rel)) as Hin by (rewrite E; set_solver).
      apply elem_of_objects_filter in Hin as (Hr0 & Hu0 & Hn0).
      destruct Hok' as (_ & _ & Hkey).
      eapply (NoDup_fmap_eq row_key); eauto.
      * rewrite Hrows. set_solver.
      * unfold row_key. congruence.
Qed.

(** The rows created are one for each distinct name that had no row. *)
Lemma resolved_new u names rid rel rel' :
  resolved u names rid rel rel' →
  ∃ new,
    rows (table rel') = rows (table rel) ++ new ∧
    Forall (λ r, row_user r = u ∧ row_name r ∈ names ∧
                 r ∉ rows (table rel)) new ∧
    row_name <$> new ≡ₚ
      remove_dups (filter (λ n, objects_filter u n (table rel) = []) names).
Proof.
  intros (Hok' & _ & (new & Hrows & Hnew) & Hall & Hlinks).
  exists new. split_and!; [done| |].
  { eapply Forall_impl; [exact Hnew|]. intros r (Hu & Hn & Hnone & _).
    split_and!; [done..|]. intros Hr.
    assert (r ∈ objects_filter u (row_name r) (table rel)) as Hin
      by by apply elem_of_objects_filter.
    rewrite Hnone in Hin. by apply not_elem_of_nil in Hin. }
  rewrite Forall_forall in Hnew.
  destruct Hok' as (_ & _ & Hkey). rewrite Hrows, fmap_app in Hkey.
  apply NoDup_app in Hkey as (_ & _ & Hkey).
  apply NoDup_Permutation.
  - apply NoDup_fmap_2_strong; [|by eapply NoDup_fmap_1].
    intros x y Hx Hy Heq. eapply (NoDup_fmap_eq row_key); eauto.
    destruct (Hnew x Hx) as (Hxu & _), (Hnew y Hy) as (Hyu & _).
    unfold row_key. congruence.
  - apply NoDup_remove_dups.
  - intros n. rewrite elem_of_remove_dups, list_elem_of_filter, list_elem_of_fmap.
    split.
    + intros (r & -> & Hr). destruct (Hnew r Hr) as (_ & ? & ? & _). done.
    + intros (Hnone & Hn). destruct (Hall n Hn) as (r & Hr & Hu & Hrn).
      exists r. split; [done|]. rewrite Hrows in Hr.
      apply elem_of_app in Hr as [Hr|Hr]; [|done].
      assert (r ∈ objects_filter u n (table rel)) as Hin
        by by apply elem_of_objects_filter.
      rewrite Hnone in Hin. by apply not_elem_of_nil in Hin.
Qed.

(** ** Running [create] and [update] *)

Lemma cleared_no_links rid rel x : (rid, x) ∉ links (cleared rid rel).
Proof. unfold cleared. simpl. rewrite elem_of_filter. simpl. tauto. Qed.

Lemma setattr_fold instance (fields : gmap string value) :
  map_fold (λ attr v i, setattr i attr v) instance fields
  = mkRecipe (recipe_id instance) (fields ∪ recipe_fields instance).
Proof.
  apply (map_fold_weak_ind
    (λ r (m : gmap string value), r = mkRecipe (recipe_id instance) (m ∪ recipe_fields instance))).
  - rewrite (left_id_L ∅ (∪)). by destruct instance.
  - intros attr v m r Hnone ->. unfold setattr. simpl. by rewrite insert_union_l.
Qed.

Lemma update_unfold auth instance vd :
  update auth instance vd =
  (replace_related Tag auth (vd_tags vd) instance;;
   replace_related Ingredient auth (vd_ingredients vd) instance;;
   let instance' := mkRecipe (recipe_id instance)
                      (vd_fields vd ∪ recipe_fields instance) in
   save instance';; mret instance').
Proof.
  unfold update, replace_related. rewrite setattr_fold.
  destruct (vd_tags vd), (vd_ingredients vd);
    by rewrite ?_get_or_create_tags_eq, ?_get_or_create_ingredients_eq.
Qed.

Lemma create_unfold auth vd db :
  create auth vd db =
  (recipe ← Recipe_objects_create (vd_fields vd);
   get_or_create_all Tag auth (default [] (vd_tags vd)) recipe;;
   get_or_create_all Ingredient auth (default [] (vd_ingredients vd)) recipe;;
   mret recipe) db.
Proof.
  unfold create. rewrite !(run_bind (Recipe_objects_create _)).
  unfold Recipe_objects_create.
  by rewrite _get_or_create_tags_eq, _get_or_create_ingredients_eq.
Qed.

Lemma replace_related_run m u names instance db :
  table_ok (table (related m db)) →
  ∃ rel',
    replace_related m u names instance db = Return () (set_related m rel' db) ∧
    replaced u names (recipe_id instance) (related m db) rel'.
Proof.
  intros Hok. destruct names as [names|]; simpl.
  - rewrite run_bind. unfold m2m_clear, modify.
    set (db1 := set_related m _ db).
    destruct (get_or_create_all_run m u names instance db1) as (rel' & Hrun & Hres).
    { unfold db1. by rewrite related_set_related. }
    exists rel'. rewrite Hrun. unfold db1 in *.
    rewrite set_related_twice. by rewrite related_set_related in Hres.
  - exists (related m db). by rewrite set_related_id.
Qed.

Lemma update_run auth instance vd db :
  table_ok (table (db_tags db)) → table_ok (table (db_ingredients db)) →
  ∃ db',
    update auth instance vd db =
      Return (mkRecipe (recipe_id instance) (vd_fields vd ∪ recipe_fields instance)) db' ∧
    recipe_table db' =
      <[recipe_id instance := vd_fields vd ∪ recipe_fields instance]> (recipe_table db) ∧
    next_recipe_id db' = next_recipe_id db ∧
    ∀ m, replaced auth (vd_names m vd) (recipe_id instance) (related m db) (related m db').
Proof.
  intros HokT HokI. rewrite update_unfold, run_bind.
  destruct (replace_related_run Tag auth (vd_tags vd) instance db HokT)
    as (relT & -> & HT).
  rewrite run_bind.
  destruct (replace_related_run Ingredient auth (vd_ingredients vd) instance
              (set_related Tag relT db) HokI) as (relI & -> & HI).
  eexists. split; [cbv zeta; rewrite run_bind; unfold save, modify; reflexivity|].
  simpl. split_and!; [done..|].
  by intros [].
Qed.

Lemma create_run auth vd db :
  table_ok (table (db_tags db)) → table_ok (table (db_ingredients db)) →
  ∃ db',
    create auth vd db = Return (mkRecipe (next_recipe_id db) (vd_fields vd)) db' ∧
    recipe_table db' = <[next_recipe_id db := vd_fields vd]> (recipe_table db) ∧
    next_recipe_id db' = S (next_recipe_id db) ∧
    ∀ m, resolved auth (default [] (vd_names m vd)) (next_recipe_id db)
           (related m db) (related m db').
Proof.
  intros HokT HokI. rewrite create_unfold, run_bind.
  unfold Recipe_objects_create. rewrite run_bind.
  set (recipe := mkRecipe _ _). set (db1 := mkDB _ _ _ _).
  destruct (get_or_create_all_run Tag auth (default [] (vd_tags vd)) recipe db1 HokT)
    as (relT & -> & HT).
  rewrite run_bind.
  destruct (get_or_create_all_run Ingredient auth (default [] (vd_ingredients vd))
              recipe (set_related Tag relT db1) HokI) as (relI & -> & HI).
  eexists. split; [reflexivity|]. simpl. split_and!; [done..|].
  by intros [].
Qed.

Lemma store_ok_table m db : store_ok db → table_ok (table (related m db)).
Proof. intros (_ & [] & []). by destruct m. Qed.

Lemma objects_filter_singleton u n t r :
  objects_filter u n t = [r] → r ∈ rows t ∧ row_user r = u ∧ row_name r = n.
Proof. intros E. apply elem_of_objects_filter. rewrite E. set_solver. Qed.

Lemma store_ok_related m db :
  store_ok db → related_ok (next_recipe_id db) (related m db).
Proof. intros (_ & ? & ?). by destruct m. Qed.

Lemma store_ok_fresh m db x :
  store_ok db → (next_recipe_id db, x) ∉ links (related m db).
Proof.
  intros Hok Hin. destruct (store_ok_related m db Hok) as [_ Hl].
  apply Hl in Hin. simpl in Hin. lia.
Qed.

Lemma store_ok_unused db : store_ok db → recipe_table db !! next_recipe_id db = None.
Proof.
  intros (Hr & _). destruct (recipe_table db !! next_recipe_id db) eqn:E; [|done].
  apply Hr in E. lia.
Qed.

(** * The serializer's guarantees *)

Lemma keeps_rows_replace_related m u names instance :
  keeps_rows (replace_related m u names instance).
Proof.
  destruct names as [names|]; simpl; [|apply keeps_rows_ret].
  apply keeps_rows_bind; [apply keeps_rows_m2m_clear|intros _].
  apply keeps_rows_get_or_create_all.
Qed.

Lemma keeps_rows_update auth instance vd : keeps_rows (update auth instance vd).
Proof.
  rewrite update_unfold.
  apply keeps_rows_bind; [apply keeps_rows_replace_related|intros _].
  apply keeps_rows_bind; [apply keeps_rows_replace_related|intros _].
  cbv zeta. apply keeps_rows_bind; [apply keeps_rows_save|intros _].
  apply keeps_rows_ret.
Qed.

Lemma keeps_rows_create auth vd : keeps_rows (create auth vd).
Proof.
  intros db m. rewrite create_unfold. revert db m.
  apply keeps_rows_bind; [by intros db []|intros recipe].
  apply keeps_rows_bind; [apply keeps_rows_get_or_create_all|intros _].
  apply keeps_rows_bind; [apply keeps_rows_get_or_create_all|intros _].
  apply keeps_rows_ret.
Qed.

(** C10.  An update that clears or replaces the tags or the ingredients of a
    recipe removes links only: whether it returns or raises, every Tag row
    and every Ingredient row of the database is still there afterwards, at
    its place in the table; the same holds for create.  No hypothesis on
    the store is needed. *)
Theorem recipe_operations_keep_rows auth instance vd db m :
  let after_update := final (update auth instance vd db) in
  let after_create := final (create auth vd db) in
  rows (table (related m db)) `prefix_of` rows (table (related m after_update)) ∧
  rows (table (related m db)) `prefix_of` rows (table (related m after_create)) ∧
  (∀ r, r ∈ rows (table (related m db)) →
        r ∈ rows (table (related m after_update)) ∧
        r ∈ rows (table (related m after_create))).
Proof.
  pose proof (keeps_rows_update auth instance vd db m) as [k Hu].
  pose proof (keeps_rows_create auth vd db m) as [k' Hc].
  simpl. rewrite Hu, Hc. split_and!; [by eexists|by eexists|].
  intros r Hr. set_solver.
Qed.

(** C8.  An update whose payload has neither the tags key nor the
    ingredients key returns and leaves both related models as they were:
    tables, links, and so the tags and ingredients of every recipe. *)
Theorem update_scalars_keeps_associations auth instance vd db :
  vd_tags vd = None → vd_ingredients vd = None →
  ∃ instance' db',
    update auth instance vd db = Return instance' db' ∧
    db_tags db' = db_tags db ∧
    db_ingredients db' = db_ingredients db ∧
    ∀ m rid, m2m_all m rid db' = m2m_all m rid db.
Proof.
  intros HT HI. rewrite update_unfold, HT, HI. simpl.
  eexists _, _. split; [reflexivity|]. split_and!; [done..|].
  by intros [] rid.
Qed.

(** C4.  An update of a loaded recipe returns; every scalar field present
    in the validated payload is the value of that attribute afterwards, and
    every attribute absent from the payload keeps the value it had before,
    in the returned instance and in the stored row; the rows of the other
    recipes are not touched. *)
Theorem update_overwrites_present_fields auth instance vd db :
  store_ok db → validated [] vd → loaded instance db →
  ∃ instance' db',
    update auth instance vd db = Return instance' db' ∧
    recipe_id instance' = recipe_id instance ∧
    loaded instance' db' ∧
    (∀ attr v, vd_fields vd !! attr = Some v →
       recipe_fields instance' !! attr = Some v) ∧
    (∀ attr, vd_fields vd !! attr = None →
       recipe_fields instance' !! attr = recipe_fields instance !! attr) ∧
    (∀ pk, pk ≠ recipe_id instance →
       recipe_table db' !! pk = recipe_table db !! pk).
Proof.
  intros Hok _ Hload.
  destruct (update_run auth instance vd db) as (db' & -> & Htab & _);
    [apply (store_ok_table Tag), Hok|apply (store_ok_table Ingredient), Hok|].
  eexists _, db'. split; [done|]. simpl. split_and!; [done| | | |].
  - unfold loaded. simpl. by rewrite Htab, lookup_insert_eq.
  - intros attr v Hv. by apply lookup_union_Some_l.
  - intros attr Hv. by rewrite lookup_union_r.
  - intros pk Hne. by rewrite Htab, lookup_insert_ne.
Qed.

(** C1.  On update, when the key of a related model (tags, or
    ingredients) is present in the validated payload, also as the empty
    list, the update returns and the rows of that model linked to the recipe
    afterwards are exactly the rows of the requesting user with a name of
    the list; each name of the list has exactly one such row, the row the
    user already had or else a new one.  The attributes of the recipe are
    the payload's scalar fields over the former ones, whatever the list,
    and a related model whose key is absent is left as it was. *)
Theorem update_replaces_associations (m : model) auth instance vd names db :
  store_ok db → validated [] vd → vd_names m vd = Some names →
  ∃ instance' db',
    update auth instance vd db = Return instance' db' ∧
    (∀ r, r ∈ m2m_all m (recipe_id instance) db' ↔
          r ∈ rows (table (related m db')) ∧ row_user r = auth ∧
          row_name r ∈ names) ∧
    (∀ n, n ∈ names →
       ∃ r, objects_filter auth n (table (related m db')) = [r] ∧
            (objects_filter auth n (table (related m db)) = [r] ∨
             (objects_filter auth n (table (related m db)) = [] ∧
              r ∉ rows (table (related m db))))) ∧
    instance' = mkRecipe (recipe_id instance)
                  (vd_fields vd ∪ recipe_fields instance) ∧
    recipe_table db' =
      <[recipe_id instance := recipe_fields instance']> (recipe_table db) ∧
    (∀ m', vd_names m' vd = None → related m' db' = related m' db).
Proof.
  intros Hok _ Hnames.
  destruct (update_run auth instance vd db) as (db' & -> & Htab & _ & Hrel);
    [apply (store_ok_table Tag), Hok|apply (store_ok_table Ingredient), Hok|].
  eexists _, db'. split; [done|]. split_and!; [| |done|done|].
  - intros r. specialize (Hrel m). rewrite Hnames in Hrel. simpl in Hrel.
    apply (resolved_all _ _ _ _ _ _ Hrel). apply cleared_no_links.
  - intros n Hn. specialize (Hrel m). rewrite Hnames in Hrel. simpl in Hrel.
    destruct (resolved_lookup _ _ _ _ _ n Hrel) as (r & Hr & _ & Hold);
      [apply (store_ok_table m), Hok|done|].
    by exists r.
  - intros m' Hnone. specialize (Hrel m'). by rewrite Hnone in Hrel.
Qed.

(** Every entry of a create is looked up or created, and linked. *)
Lemma create_resolves_entries_aux (m : model) auth vd db :
  store_ok db →
  ∃ recipe db',
    create auth vd db = Return recipe db' ∧
    ∀ n, n ∈ default [] (vd_names m vd) →
      ∃ r, objects_filter auth n (table (related m db')) = [r] ∧
           (objects_filter auth n (table (related m db)) = [r] ∨
            (objects_filter auth n (table (related m db)) = [] ∧
             r ∉ rows (table (related m db)))) ∧
           r ∈ m2m_all m (recipe_id recipe) db'.
Proof.
  intros Hok.
  destruct (create_run auth vd db) as (db' & -> & Htab & _ & Hrel);
    [apply (store_ok_table Tag), Hok|apply (store_ok_table Ingredient), Hok|].
  eexists _, db'. split; [done|]. simpl.
  intros n Hn.
  destruct (resolved_lookup _ _ _ _ _ n (Hrel m)) as (r & Hr & Hlink & Hold);
    [apply (store_ok_table m), Hok|done|].
  exists r. split_and!; [done..|].
  apply list_elem_of_filter. split; [done|].
  by apply objects_filter_singleton in Hr as (? & _).
Qed.

(** C2.  A create returns a new recipe, and for every entry of the tags
    list (and of the ingredients list) there is afterwards exactly one row
    of the authenticated user with that name: the row the user already had,
    or else a row that was not in the table before; that row is linked to
    the new recipe. *)
Theorem create_resolves_every_entry (m : model) auth vd db :
  store_ok db → validated ["user"] vd →
  ∃ recipe db',
    create auth vd db = Return recipe db' ∧
    recipe_table db !! recipe_id recipe = None ∧
    recipe_table db' !! recipe_id recipe = Some (recipe_fields recipe) ∧
    ∀ n, n ∈ default [] (vd_names m vd) →
      ∃ r, objects_filter auth n (table (related m db')) = [r] ∧
           (objects_filter auth n (table (related m db)) = [r] ∨
            (objects_filter auth n (table (related m db)) = [] ∧
             r ∉ rows (table (related m db)))) ∧
           r ∈ m2m_all m (recipe_id recipe) db'.
Proof.
  intros Hok _.
  destruct (create_run auth vd db) as (db' & -> & Htab & _ & Hrel);
    [apply (store_ok_table Tag), Hok|apply (store_ok_table Ingredient), Hok|].
  eexists _, db'. split; [done|]. simpl. split_and!.
  - by apply store_ok_unused.
  - by rewrite Htab, lookup_insert_eq.
  - intros n Hn.
    destruct (resolved_lookup _ _ _ _ _ n (Hrel m)) as (r & Hr & Hlink & Hold);
      [apply (store_ok_table m), Hok|done|].
    exists r. split_and!; [done..|].
    apply list_elem_of_filter. split; [done|].
    by apply objects_filter_singleton in Hr as (? & _).
Qed.

Lemma filter_all {A} (P : A → Prop) `{∀ x, Decision (P x)} (l : list A) :
  (∀ x, x ∈ l → P x) → filter P l = l.
Proof.
  induction l as [|a l IH]; intros Hall; [done|].
  rewrite filter_cons_True by (apply Hall; set_solver).
  f_equal. apply IH. intros x Hx. apply Hall. set_solver.
Qed.

(** What a create does to one related model. *)
Lemma create_related (m : model) auth vd db :
  store_ok db →
  ∃ recipe db' new,
    create auth vd db = Return recipe db' ∧
    rows (table (related m db')) = rows (table (related m db)) ++ new ∧
    row_name <$> new ≡ₚ
      remove_dups (filter (λ n, objects_filter auth n (table (related m db)) = [])
                     (default [] (vd_names m vd))) ∧
    Forall (λ r, row_user r = auth ∧ r ∉ rows (table (related m db))) new ∧
    (∀ r, r ∈ m2m_all m (recipe_id recipe) db' ↔
          r ∈ rows (table (related m db')) ∧ row_user r = auth ∧
          row_name r ∈ default [] (vd_names m vd)) ∧
    (∀ r, r ∈ new → row_name r ∈ default [] (vd_names m vd)).
Proof.
  intros Hok.
  destruct (create_run auth vd db) as (db' & -> & Htab & _ & Hrel);
    [apply (store_ok_table Tag), Hok|apply (store_ok_table Ingredient), Hok|].
  destruct (resolved_new _ _ _ _ _ (Hrel m)) as (new & Hrows & Hnew & Hperm).
  eexists _, db', new. split; [done|]. simpl. split_and!; [done|done| | |].
  - eapply Forall_impl; [exact Hnew|]. naive_solver.
  - intros r. apply (resolved_all _ _ _ _ _ _ (Hrel m)).
    intros x. by apply store_ok_fresh.
  - intros r Hr. rewrite Forall_forall in Hnew. by destruct (Hnew r Hr) as (_ & ? & _).
Qed.

(** C6, as the code has it.  When none of the names of the tags list has a
    row of the creating user, the create returns and has appended one new
    Tag row for each distinct name of the list (a name that is repeated in
    the list gets one row): as many rows as the list has distinct names,
    each owned by the creating user and linked to the new recipe.  The
    same holds for ingredients. *)
Theorem create_new_names_one_row_each (m : model) auth vd names db :
  store_ok db → validated ["user"] vd → vd_names m vd = Some names →
  (∀ n, n ∈ names → objects_filter auth n (table (related m db)) = []) →
  ∃ recipe db' new,
    create auth vd db = Return recipe db' ∧
    rows (table (related m db')) = rows (table (related m db)) ++ new ∧
    row_name <$> new ≡ₚ remove_dups names ∧
    length new = length (remove_dups names) ∧
    Forall (λ r, row_user r = auth ∧ r ∈ m2m_all m (recipe_id recipe) db') new.
Proof.
  intros Hok _ Hnames Hnone.
  destruct (create_related m auth vd db Hok)
    as (recipe & db' & new & Hrun & Hrows & Hperm & Hnew & Hall & Hin).
  rewrite Hnames in Hperm, Hall, Hin. simpl in Hperm, Hall, Hin.
  rewrite (filter_all _ names Hnone) in Hperm.
  exists recipe, db', new. split_and!; [done|done|done| |].
  - by rewrite <-Hperm, length_fmap.
  - rewrite Forall_forall in Hnew |- *. intros r Hr.
    destruct (Hnew r Hr) as (Hu & _). split; [done|].
    apply Hall. split_and!; [|done|by apply Hin]. rewrite Hrows. set_solver.
Qed.

(** C7.  A create whose tags list mixes names the user already has and
    names the user does not have returns; each name the user had a row for
    resolves to that same row, which is still the only row of that name and
    is linked to the new recipe, and each missing name gets one new row,
    linked to the new recipe as well; the rows appended to the table are
    one for each distinct missing name and no other.  The same holds for
    ingredients. *)
Theorem create_reuses_existing_rows (m : model) auth vd names db :
  store_ok db → validated ["user"] vd → vd_names m vd = Some names →
  ∃ recipe db' new,
    create auth vd db = Return recipe db' ∧
    rows (table (related m db')) = rows (table (related m db)) ++ new ∧
    row_name <$> new ≡ₚ
      remove_dups (filter (λ n, objects_filter auth n (table (related m db)) = [])
                     names) ∧
    Forall (λ r, row_user r = auth ∧ r ∉ rows (table (related m db))) new ∧
    (∀ n r0, n ∈ names →
       objects_filter auth n (table (related m db)) = [r0] →
       objects_filter auth n (table (related m db')) = [r0] ∧
       r0 ∈ m2m_all m (recipe_id recipe) db') ∧
    (∀ n, n ∈ names →
       objects_filter auth n (table (related m db)) = [] →
       ∃ r, r ∈ new ∧
            objects_filter auth n (table (related m db')) = [r] ∧
            r ∈ m2m_all m (recipe_id recipe) db').
Proof.
  intros Hok Hval Hnames.
  destruct (create_related m auth vd db Hok)
    as (recipe & db' & new & Hrun & Hrows & Hperm & Hnew & Hall & Hin).
  destruct (create_resolves_entries_aux m auth vd db Hok)
    as (recipe' & db'' & Hrun' & Hres).
  rewrite Hrun in Hrun'. simplify_eq.
  rewrite Hnames in Hperm, Hall, Hin, Hres. simpl in Hperm, Hall, Hin, Hres.
  exists recipe', db'', new. split_and!; [done..| |].
  - intros n r0 Hn Hr0. destruct (Hres n Hn) as (r & Hr & [Hold|[Hold _]] & Hlink);
      rewrite Hold in Hr0; by simplify_eq.
  - intros n Hn Hnone. destruct (Hres n Hn) as (r & Hr & [Hold|[_ Hfresh]] & Hlink);
      [by rewrite Hold in Hnone|].
    exists r. split_and!; [|done..].
    apply objects_filter_singleton in Hr as (Hr & _). rewrite Hrows in Hr.
    set_solver.
Qed.

(** ** The store stays well-formed, and links stay within the user's rows *)

Lemma related_ok_mono k k' rel : related_ok k rel → k ≤ k' → related_ok k' rel.
Proof.
  intros [Hok Hl] Hle. split; [done|]. intros p Hp. apply Hl in Hp. simpl in *. lia.
Qed.

Lemma related_ok_cleared k rid rel : related_ok k rel → related_ok k (cleared rid rel).
Proof.
  intros [Hok Hl]. split; [done|]. intros p [_ Hp]%elem_of_filter. by apply Hl.
Qed.

Lemma resolved_related_ok k u names rid rel rel' :
  resolved u names rid rel rel' → related_ok k rel → rid < k → related_ok k rel'.
Proof.
  intros (Hok' & Hle & _ & _ & Hlinks) [Hok Hl] Hrid. split; [done|].
  intros p [Hp|(r & Hr & _ & _ & ->)]%Hlinks.
  - apply Hl in Hp. simpl in *. lia.
  - simpl. split; [done|]. destruct Hok' as (_ & Hlt & _).
    rewrite Forall_forall in Hlt. by apply Hlt.
Qed.

Lemma replaced_related_ok k u names rid rel rel' :
  replaced u names rid rel rel' → related_ok k rel → rid < k → related_ok k rel'.
Proof.
  destruct names as [names|]; simpl; [|by intros ->].
  intros Hres Hok Hrid. eapply resolved_related_ok; [done| |done].
  by apply related_ok_cleared.
Qed.

(** The rows linked to another recipe are the same before and after. *)
Lemma resolved_other k u names rid rid' rel rel' r :
  resolved u names rid rel rel' → related_ok k rel → rid' ≠ rid →
  r ∈ filter (λ r, (rid', row_id r) ∈ links rel') (rows (table rel')) →
  r ∈ filter (λ r, (rid', row_id r) ∈ links rel) (rows (table rel)).
Proof.
  intros (_ & _ & (new & Hrows & Hnew) & _ & Hlinks) [_ Hl] Hne.
  rewrite !list_elem_of_filter, Hlinks, Hrows.
  intros [[Hp|(x & _ & _ & _ & ?)] Hr]; [|by simplify_eq].
  split; [done|]. apply elem_of_app in Hr as [Hr|Hr]; [done|].
  rewrite Forall_forall in Hnew. destruct (Hnew r Hr) as (_ & _ & _ & Hid).
  apply Hl in Hp. simpl in Hp. lia.
Qed.

Lemma replaced_other k u names rid rid' rel rel' r :
  replaced u names rid rel rel' → related_ok k rel → rid' ≠ rid →
  r ∈ filter (λ r, (rid', row_id r) ∈ links rel') (rows (table rel')) →
  r ∈ filter (λ r, (rid', row_id r) ∈ links rel) (rows (table rel)).
Proof.
  destruct names as [names|]; simpl; [|by intros ->].
  intros Hres Hok Hne Hr.
  eapply resolved_other in Hr; [|done|by apply related_ok_cleared|done].
  revert Hr. rewrite !list_elem_of_filter. simpl. rewrite elem_of_filter. tauto.
Qed.

Lemma store_ok_stored db pk :
  store_ok db → is_Some (recipe_table db !! pk) → pk < next_recipe_id db.
Proof. intros (Hr & _) [f Hf]. by apply Hr in Hf. Qed.

Lemma create_invariant auth vd db :
  store_ok db →
  ∃ recipe db',
    create auth vd db = Return recipe db' ∧
    store_ok db' ∧
    owned_by auth (recipe_id recipe) db' ∧
    (∀ u rid, rid ≠ recipe_id recipe → owned_by u rid db → owned_by u rid db').
Proof.
  intros Hok.
  destruct (create_run auth vd db) as (db' & -> & Htab & Hnext & Hrel);
    [apply (store_ok_table Tag), Hok|apply (store_ok_table Ingredient), Hok|].
  eexists _, db'. split; [done|]. simpl. split_and!.
  - assert (∀ m, related_ok (next_recipe_id db') (related m db')) as Hrel'.
    { intros m. rewrite Hnext.
      eapply resolved_related_ok; [apply (Hrel m)| |lia].
      eapply related_ok_mono; [by apply store_ok_related|lia]. }
    split_and!; [|apply (Hrel' Tag)|apply (Hrel' Ingredient)].
    rewrite Htab, Hnext. apply map_Forall_insert_2; [lia|].
    destruct Hok as (Hr & _). intros pk f Hpk. apply Hr in Hpk. lia.
  - intros m r Hr. apply (resolved_all _ _ _ _ _ _ (Hrel m)) in Hr; [tauto|].
    intros x. by apply store_ok_fresh.
  - intros u rid Hne Hown m r Hr. apply (Hown m).
    eapply resolved_other; [apply (Hrel m)|by apply store_ok_related|done|done].
Qed.

Lemma update_invariant auth instance vd db :
  store_ok db →
  is_Some (recipe_table db !! recipe_id instance) →
  ∃ instance' db',
    update auth instance vd db = Return instance' db' ∧
    store_ok db' ∧
    (owned_by auth (recipe_id instance) db → owned_by auth (recipe_id instance) db') ∧
    (∀ u rid, rid ≠ recipe_id instance → owned_by u rid db → owned_by u rid db').
Proof.
  intros Hok Hlt%(store_ok_stored _ _ Hok).
  destruct (update_run auth instance vd db) as (db' & -> & Htab & Hnext & Hrel);
    [apply (store_ok_table Tag), Hok|apply (store_ok_table Ingredient), Hok|].
  eexists _, db'. split; [done|]. split_and!.
  - assert (∀ m, related_ok (next_recipe_id db') (related m db')) as Hrel'.
    { intros m. rewrite Hnext.
      eapply replaced_related_ok; [apply (Hrel m)|by apply store_ok_related|done]. }
    split_and!; [|apply (Hrel' Tag)|apply (Hrel' Ingredient)].
    rewrite Htab, Hnext. apply map_Forall_insert_2; [done|]. by destruct Hok.
  - intros Hown m r Hr. specialize (Hrel m). unfold replaced in Hrel.
    destruct (vd_names m vd) as [names|].
    + apply (resolved_all _ _ _ _ _ _ Hrel) in Hr; [tauto|].
      apply cleared_no_links.
    + apply (Hown m). unfold m2m_all in *. by rewrite <-Hrel.
  - intros u rid Hne Hown' m r Hr. apply (Hown' m).
    eapply replaced_other; [apply (Hrel m)|by apply store_ok_related|done|done].
Qed.

Lemma destroy_store_ok auth pk db db' :
  store_ok db → view_destroy auth pk db = Return () db' → store_ok db'.
Proof.
  intros (Hr & HT & HI). unfold view_destroy. rewrite run_bind.
  destruct (get_object auth pk db) as [instance db1|] eqn:Hget; [|done].
  unfold get_object in Hget. destruct (recipe_table db !! pk); [|done].
  destruct (decide _); [|done]. injection Hget as <- <-.
  unfold modify. intros [= <-]. simpl. split_and!.
  - intros k f Hk. simpl in Hk. apply lookup_delete_Some in Hk as [_ Hk].
    by apply Hr in Hk.
  - by apply related_ok_cleared.
  - by apply related_ok_cleared.
Qed.

(** Every store built by the recipe operations from the empty database is
    well-formed: a user never gets two rows of the same name. *)
Lemma reachable_store_ok db : reachable db → store_ok db.
Proof.
  induction 1 as [|auth vd db recipe db' _ IH Hrun
                  |auth instance vd db instance' db' _ IH Hin Hrun
                  |auth pk db db' _ IH Hrun].
  - apply (bool_decide_unpack _). vm_compute. exact I.
  - destruct (create_invariant auth vd db IH) as (r & d & Hrun' & Hok & _).
    rewrite Hrun in Hrun'. by simplify_eq.
  - destruct (update_invariant auth instance vd db IH Hin) as (i & d & Hrun' & Hok & _).
    rewrite Hrun in Hrun'. by simplify_eq.
  - by eapply destroy_store_ok.
Qed.

(** C3.  Create and update preserve the invariant that every tag and every
    ingredient linked to a recipe is a row of the user who issued the
    request on that recipe.  On a well-formed store, a create by user
    [auth] returns, the store is well-formed again, every row linked to the
    new recipe is owned by [auth], and the links of every other recipe are
    owned as before.  An update by [auth] of a stored recipe whose linked
    rows are owned by [auth] returns, the store is well-formed again, the
    rows linked to the recipe are again all owned by [auth], and the links
    of every other recipe are owned as before. *)
Theorem associations_owned_by_requester auth db :
  store_ok db →
  (∀ vd, validated ["user"] vd →
     ∃ recipe db',
       create auth vd db = Return recipe db' ∧
       store_ok db' ∧
       owned_by auth (recipe_id recipe) db' ∧
       (∀ u rid, rid ≠ recipe_id recipe → owned_by u rid db → owned_by u rid db')) ∧
  (∀ instance vd,
     is_Some (recipe_table db !! recipe_id instance) →
     owned_by auth (recipe_id instance) db →
     ∃ instance' db',
       update auth instance vd db = Return instance' db' ∧
       store_ok db' ∧
       owned_by auth (recipe_id instance) db' ∧
       (∀ u rid, rid ≠ recipe_id instance → owned_by u rid db → owned_by u rid db')).
Proof.
  intros Hok. split.
  - intros vd _. by apply create_invariant.
  - intros instance vd Hin Hown.
    destruct (update_invariant auth instance vd db Hok Hin)
      as (i & d & Hrun & Hok' & Hown' & Hother).
    exists i, d. split_and!; [done|done|by apply Hown'|done].
Qed.

(** ** Validation and the views *)

Section ViewFacts.

Variable accepts : string → value → bool.
Variable required : list string.

Lemma serializer_fields_no_user fields :
  fields ∈ [RecipeSerializer.Meta_fields; RecipeDetailSerializer.Meta_fields] →
  "user" ∉ writable fields RecipeSerializer.Meta_read_only_fields.
Proof.
  intros [->|[->|[]%not_elem_of_nil]%elem_of_cons]%elem_of_cons;
    vm_compute; intros Hin;
    repeat (apply elem_of_cons in Hin as [Hin|Hin]; [discriminate|]);
    by apply not_elem_of_nil in Hin.
Qed.

(** Validation does not read a key that is not a declared writable field. *)
Lemma to_internal_value_without_user fields read_only partial data db :
  "user" ∉ writable fields read_only →
  to_internal_value accepts required fields read_only partial (without_user data) db
  = to_internal_value accepts required fields read_only partial data db.
Proof.
  intros Hno. unfold to_internal_value, without_user. simpl.
  assert (filter (λ kv : string * value,
             kv.1 ∈ writable fields read_only ∧ kv.1 ∉ ["tags"; "ingredients"])
            (delete "user" (data_fields data))
          = filter (λ kv : string * value,
             kv.1 ∈ writable fields read_only ∧ kv.1 ∉ ["tags"; "ingredients"])
            (data_fields data)) as ->.
  { rewrite map_filter_delete. apply delete_id.
    apply map_lookup_filter_None. right. intros v _ [Hin _]. done. }
  assert (filter (λ f, f ∈ writable fields read_only ∧
                       delete "user" (data_fields data) !! f = None) required
          = filter (λ f, f ∈ writable fields read_only ∧
                       data_fields data !! f = None) required) as ->; [|done].
  apply list_filter_iff. intros f. split; intros [Hin Hf]; (split; [done|]).
  - rewrite lookup_delete_ne in Hf; [done|]. by intros <-.
  - rewrite lookup_delete_ne; [done|]. by intros <-.
Qed.

(** Validation does not write, and what it returns has declared keys only. *)
Lemma to_internal_value_returns fields read_only partial data db vd db' :
  to_internal_value accepts required fields read_only partial data db = Return vd db' →
  db' = db ∧
  ∀ k, is_Some (vd_fields vd !! k) → k ∈ writable fields read_only.
Proof.
  unfold to_internal_value.
  destruct (negb partial && _); [done|]. destruct (bool_decide _); [|done].
  intros [= <- <-]. split; [done|]. simpl.
  intros k [v [_ [Hk _]]%map_lookup_filter_Some]. done.
Qed.

Lemma get_object_returns auth pk db instance db' :
  get_object auth pk db = Return instance db' →
  db' = db ∧ recipe_id instance = pk ∧ loaded instance db ∧
  recipe_fields instance !! "user" = Some (VUser auth).
Proof.
  unfold get_object, loaded. destruct (recipe_table db !! pk) as [f|] eqn:E; [|done].
  destruct (decide _) as [Hu|]; [|done]. intros [= <- <-]. by simpl.
Qed.

Lemma get_object_not_owned auth pk db f :
  recipe_table db !! pk = Some f → f !! "user" ≠ Some (VUser auth) →
  get_object auth pk db = Raise Http404 db.
Proof. unfold get_object. intros -> Hne. by destruct (decide _). Qed.

(** C5.  The user field is not a field of the serializers, so a request
    body with a user key is handled exactly as the same body without the
    key, for update and for create, in what it returns, in what it raises
    and in what it leaves in the store: the request does not fail because
    of the key.  An update returns whenever the recipe is found and the
    body is valid, and the stored owner of the recipe is then the owner it
    had before, the requesting user; a create returns whenever the body is
    valid, and the owner of the new recipe is then the requesting user. *)
Theorem user_not_settable fields partial auth pk data db :
  store_ok db →
  fields ∈ [RecipeSerializer.Meta_fields; RecipeDetailSerializer.Meta_fields] →
  let read_only := RecipeSerializer.Meta_read_only_fields in
  view_update accepts required fields read_only partial auth pk data db
  = view_update accepts required fields read_only partial auth pk (without_user data) db ∧
  view_create accepts required fields read_only auth data db
  = view_create accepts required fields read_only auth (without_user data) db ∧
  (∀ instance' db',
     view_update accepts required fields read_only partial auth pk data db
     = Return instance' db' →
     ∃ f, recipe_table db !! pk = Some f ∧
          f !! "user" = Some (VUser auth) ∧
          recipe_table db' !! pk = Some (recipe_fields instance') ∧
          recipe_fields instance' !! "user" = Some (VUser auth)) ∧
  (∀ recipe db',
     view_create accepts required fields read_only auth data db = Return recipe db' →
     recipe_table db !! recipe_id recipe = None ∧
     recipe_table db' !! recipe_id recipe = Some (recipe_fields recipe) ∧
     recipe_fields recipe !! "user" = Some (VUser auth)) ∧
  (∀ instance vd,
     get_object auth pk db = Return instance db →
     to_internal_value accepts required fields read_only partial data db
     = Return vd db →
     ∃ instance' db',
       view_update accepts required fields read_only partial auth pk data db
       = Return instance' db') ∧
  (∀ vd,
     to_internal_value accepts required fields read_only false data db
     = Return vd db →
     ∃ recipe db',
       view_create accepts required fields read_only auth data db
       = Return recipe db').
Proof.
  intros Hok Hfields read_only.
  pose proof (serializer_fields_no_user fields Hfields) as Hno.
  split_and!; cycle 4.
  - intros instance vd Hget Hval. unfold view_update.
    rewrite run_bind, Hget, run_bind, Hval.
    destruct (update_run auth instance vd db) as (db' & -> & _);
      [apply (store_ok_table Tag), Hok|apply (store_ok_table Ingredient), Hok|].
    by eexists _, _.
  - intros vd Hval. unfold view_create. rewrite run_bind, Hval.
    match goal with |- ∃ _ _, create auth ?vd' db = _ =>
      destruct (create_run auth vd' db) as (db' & -> & _)
    end; [apply (store_ok_table Tag), Hok|apply (store_ok_table Ingredient), Hok|].
    by eexists _, _.
  - unfold view_update. rewrite !run_bind.
    destruct (get_object auth pk db) as [instance db1|]; [|done].
    rewrite !run_bind. by rewrite to_internal_value_without_user.
  - unfold view_create. rewrite !run_bind.
    by rewrite to_internal_value_without_user.
  - intros instance' db'. unfold view_update. rewrite run_bind.
    destruct (get_object auth pk db) as [instance db1|] eqn:Hget; [|done].
    apply get_object_returns in Hget as (-> & <- & Hload & Huser).
    rewrite run_bind.
    destruct (to_internal_value _ _ _ _ _ _ db) as [vd db1|] eqn:Hval; [|done].
    apply to_internal_value_returns in Hval as [-> Hkeys].
    destruct (update_run auth instance vd db) as (db'' & -> & Htab & _);
      [apply (store_ok_table Tag), Hok|apply (store_ok_table Ingredient), Hok|].
    intros [= <- <-]. exists (recipe_fields instance). simpl.
    split_and!; [done|done|by rewrite Htab, lookup_insert_eq|].
    rewrite lookup_union_r; [done|].
    destruct (vd_fields vd !! "user") eqn:E; [|done].
    exfalso. apply Hno, Hkeys. by rewrite E.
  - intros recipe db'. unfold view_create. rewrite run_bind.
    destruct (to_internal_value _ _ _ _ _ _ db) as [vd db1|] eqn:Hval; [|done].
    apply to_internal_value_returns in Hval as [-> Hkeys].
    match goal with |- create auth ?vd' db = _ → _ =>
      destruct (create_run auth vd' db) as (db'' & -> & Htab & _)
    end; [apply (store_ok_table Tag), Hok|apply (store_ok_table Ingredient), Hok|].
    intros [= <- <-]. simpl. split_and!.
    + by apply store_ok_unused.
    + by rewrite Htab, lookup_insert_eq.
    + by rewrite lookup_insert_eq.
Qed.

(** The views delete no Tag row and no Ingredient row either. *)
Lemma keeps_rows_get_object auth pk : keeps_rows (get_object auth pk).
Proof.
  intros db m. unfold get_object. destruct (recipe_table db !! pk); [|done].
  by destruct (decide _).
Qed.

Lemma keeps_rows_to_internal_value fields read_only partial data :
  keeps_rows (to_internal_value accepts required fields read_only partial data).
Proof.
  intros db m. unfold to_internal_value.
  destruct (negb partial && _); [done|]. by destruct (bool_decide _).
Qed.

Lemma keeps_rows_views fields read_only partial auth pk data :
  keeps_rows (view_retrieve auth pk) ∧
  keeps_rows (view_update accepts required fields read_only partial auth pk data) ∧
  keeps_rows (view_create accepts required fields read_only auth data) ∧
  keeps_rows (view_destroy auth pk).
Proof.
  split_and!.
  - apply keeps_rows_get_object.
  - apply keeps_rows_bind; [apply keeps_rows_get_object|intros instance].
    apply keeps_rows_bind; [apply keeps_rows_to_internal_value|intros vd].
    apply keeps_rows_update.
  - apply keeps_rows_bind; [apply keeps_rows_to_internal_value|intros vd].
    apply keeps_rows_create.
  - apply keeps_rows_bind; [apply keeps_rows_get_object|intros instance].
    apply keeps_rows_modify. by intros db [].
Qed.

(** C9.  A retrieve, an update or a delete by an authenticated user on a
    recipe owned by another user raises not-found, which is not the
    forbidden error, and leaves the store, so the recipe's attributes and
    its links, exactly as it was. *)
Theorem other_users_recipe_not_found fields read_only partial auth pk data db f :
  recipe_table db !! pk = Some f → f !! "user" ≠ Some (VUser auth) →
  view_retrieve auth pk db = Raise Http404 db ∧
  view_update accepts required fields read_only partial auth pk data db
  = Raise Http404 db ∧
  view_destroy auth pk db = Raise Http404 db ∧
  Http404 ≠ PermissionDenied.
Proof.
  intros Hf Hne. pose proof (get_object_not_owned auth pk db f Hf Hne) as Hget.
  unfold view_retrieve, view_update, view_destroy. rewrite !run_bind, Hget. done.
Qed.

End ViewFacts.

(** * The test suite's scenarios *)

Module Scenarios.
Import Sample.

Ltac by_decision := apply (bool_decide_unpack _); vm_compute; exact I.

Lemma empty_ok : store_ok empty.
Proof. by_decision. Qed.

Lemma with_indian_ok : store_ok with_indian.
Proof. by_decision. Qed.

Lemma with_recipes_ok : store_ok with_recipes.
Proof. by_decision. Qed.

(** test_create_recipe_with_tags *)
Example create_recipe_with_tags :
  let db' := final (create 1 curry empty) in
  m2m_all Tag 0 db' = [mkRow 0 1 "Thai"; mkRow 1 1 "Dinner"] ∧
  rows (table (db_tags db')) = [mkRow 0 1 "Thai"; mkRow 1 1 "Dinner"].
Proof. by vm_compute. Qed.

(** test_create_recipe_with_existing_tags *)
Example create_recipe_with_existing_tags :
  let db' := final (create 1 pongal with_indian) in
  m2m_all Tag 0 db' = [mkRow 0 1 "Indian"; mkRow 1 1 "Breakfast"] ∧
  rows (table (db_tags db')) = [mkRow 0 1 "Indian"; mkRow 1 1 "Breakfast"].
Proof. by vm_compute. Qed.

(** test_update_recipe_assign_tags *)
Example update_recipe_assign_tags :
  let db' := final (update 1 recipe0 patch_lunch with_recipes) in
  m2m_all Tag 0 db' = [mkRow 1 1 "Lunch"] ∧
  m2m_all Ingredient 0 db' = [mkRow 0 1 "Salt"] ∧
  rows (table (db_tags db')) = rows (table (db_tags with_recipes)).
Proof. by vm_compute. Qed.

(** test_clear_recipe_tags *)
Example clear_recipe_tags :
  let db' := final (update 1 recipe0 patch_clear with_recipes) in
  m2m_all Tag 0 db' = [] ∧
  recipe_table db' = recipe_table with_recipes.
Proof. by vm_compute. Qed.

(** A name that two rows of the user carry cannot be resolved. *)
Example create_with_duplicate_rows :
  ∃ db', create 1 curry with_duplicates = Raise MultipleObjectsReturned db'.
Proof. eexists. by vm_compute. Qed.

End Scenarios.

(** * The guarantees at work on the sample stores *)

Module Witnesses.
Import Sample.

Ltac by_decision := apply (bool_decide_unpack _); vm_compute; exact I.

Lemma update_replaces_associations_witness :
  store_ok with_recipes ∧ validated [] patch_lunch ∧
  vd_names Tag patch_lunch = Some ["Lunch"] ∧
  ∃ instance' db',
    update 1 recipe0 patch_lunch with_recipes = Return instance' db' ∧
    (∀ r, r ∈ m2m_all Tag 0 db' ↔
          r ∈ rows (table (related Tag db')) ∧ row_user r = 1 ∧
          row_name r ∈ ["Lunch"]).
Proof.
  assert (store_ok with_recipes) as H1 by by_decision.
  assert (validated [] patch_lunch) as H2 by by_decision.
  assert (vd_names Tag patch_lunch = Some ["Lunch"]) as H3 by reflexivity.
  split_and!; [exact H1|exact H2|exact H3|].
  destruct (update_replaces_associations Tag 1 recipe0 patch_lunch ["Lunch"]
              with_recipes H1 H2 H3) as (i & d & Hrun & Hall & _).
  exists i, d. split; [exact Hrun|exact Hall].
Defined.

Lemma create_resolves_every_entry_witness :
  store_ok with_indian ∧ validated ["user"] pongal ∧
  ∃ recipe db',
    create 1 pongal with_indian = Return recipe db' ∧
    ∀ n, n ∈ ["Indian"; "Breakfast"] →
      ∃ r, objects_filter 1 n (table (related Tag db')) = [r] ∧
           r ∈ m2m_all Tag (recipe_id recipe) db'.
Proof.
  assert (store_ok with_indian) as H1 by by_decision.
  assert (validated ["user"] pongal) as H2 by by_decision.
  split_and!; [exact H1|exact H2|].
  destruct (create_resolves_every_entry Tag 1 pongal with_indian H1 H2)
    as (rcp & d & Hrun & _ & _ & Hall).
  exists rcp, d. split; [exact Hrun|].
  intros n Hn. destruct (Hall n Hn) as (r & Hr & _ & Hlink).
  exists r. split; [exact Hr|exact Hlink].
Defined.

Lemma owned_by_sample : owned_by 1 0 with_recipes.
Proof.
  assert (m2m_all Tag 0 with_recipes = [mkRow 0 1 "Breakfast"]) as ET
    by (vm_compute; reflexivity).
  assert (m2m_all Ingredient 0 with_recipes = [mkRow 0 1 "Salt"]) as EI
    by (vm_compute; reflexivity).
  intros m r Hr. destruct m.
  - rewrite ET in Hr. apply list_elem_of_singleton in Hr. rewrite Hr. reflexivity.
  - rewrite EI in Hr. apply list_elem_of_singleton in Hr. rewrite Hr. reflexivity.
Defined.

Lemma associations_owned_by_requester_witness :
  store_ok with_recipes ∧ validated ["user"] curry ∧
  is_Some (recipe_table with_recipes !! recipe_id recipe0) ∧
  owned_by 1 (recipe_id recipe0) with_recipes ∧
  (∃ recipe db',
     create 1 curry with_recipes = Return recipe db' ∧
     store_ok db' ∧ owned_by 1 (recipe_id recipe) db') ∧
  (∃ instance' db',
     update 1 recipe0 patch_lunch with_recipes = Return instance' db' ∧
     store_ok db' ∧ owned_by 1 (recipe_id recipe0) db').
Proof.
  assert (store_ok with_recipes) as H1 by by_decision.
  assert (validated ["user"] curry) as H2 by by_decision.
  assert (is_Some (recipe_table with_recipes !! recipe_id recipe0)) as H3
    by (exists sample_fields; vm_compute; reflexivity).
  pose proof owned_by_sample as H4.
  destruct (associations_owned_by_requester 1 with_recipes H1) as [Hc Hu].
  split_and!; [exact H1|exact H2|exact H3|exact H4| |].
  - destruct (Hc curry H2) as (rcp & d & Hrun & Hok & Hown & _).
    exists rcp, d. split_and!; [exact Hrun|exact Hok|exact Hown].
  - destruct (Hu recipe0 patch_lunch H3 H4) as (i & d & Hrun & Hok & Hown & _).
    exists i, d. split_and!; [exact Hrun|exact Hok|exact Hown].
Defined.

Lemma update_overwrites_present_fields_witness :
  store_ok with_recipes ∧ validated [] patch_title ∧ loaded recipe0 with_recipes ∧
  ∃ instance' db',
    update 1 recipe0 patch_title with_recipes = Return instance' db' ∧
    recipe_fields instance' !! "title" = Some (VStr "New recipe title") ∧
    recipe_fields instance' !! "link" = recipe_fields recipe0 !! "link".
Proof.
  assert (store_ok with_recipes) as H1 by by_decision.
  assert (validated [] patch_title) as H2 by by_decision.
  assert (loaded recipe0 with_recipes) as H3 by (vm_compute; reflexivity).
  split_and!; [exact H1|exact H2|exact H3|].
  destruct (update_overwrites_present_fields 1 recipe0 patch_title with_recipes
              H1 H2 H3) as (i & d & Hrun & _ & _ & Hset & Hkeep & _).
  exists i, d. split_and!; [exact Hrun| |].
  - apply Hset. vm_compute. reflexivity.
  - apply Hkeep. vm_compute. reflexivity.
Defined.

Lemma create_new_names_one_row_each_witness :
  store_ok with_indian ∧ validated ["user"] curry ∧
  vd_names Tag curry = Some ["Thai"; "Dinner"] ∧
  (∀ n, n ∈ ["Thai"; "Dinner"] →
        objects_filter 1 n (table (related Tag with_indian)) = []) ∧
  ∃ recipe db' new,
    create 1 curry with_indian = Return recipe db' ∧
    rows (table (related Tag db')) = rows (table (related Tag with_indian)) ++ new ∧
    length new = 2.
Proof.
  assert (store_ok with_indian) as H1 by by_decision.
  assert (validated ["user"] curry) as H2 by by_decision.
  assert (vd_names Tag curry = Some ["Thai"; "Dinner"]) as H3 by reflexivity.
  assert (∀ n, n ∈ ["Thai"; "Dinner"] →
            objects_filter 1 n (table (related Tag with_indian)) = []) as H4.
  { intros n Hn. apply elem_of_cons in Hn as [->|Hn]; [vm_compute; reflexivity|].
    apply list_elem_of_singleton in Hn as ->. vm_compute. reflexivity. }
  split_and!; [exact H1|exact H2|exact H3|exact H4|].
  destruct (create_new_names_one_row_each Tag 1 curry ["Thai"; "Dinner"]
              with_indian H1 H2 H3 H4) as (rcp & d & new & Hrun & Hrows & _ & Hlen & _).
  exists rcp, d, new. split_and!; [exact Hrun|exact Hrows|exact Hlen].
Defined.

Lemma create_reuses_existing_rows_witness :
  store_ok with_indian ∧ validated ["user"] pongal ∧
  vd_names Tag pongal = Some ["Indian"; "Breakfast"] ∧
  ∃ recipe db' new,
    create 1 pongal with_indian = Return recipe db' ∧
    rows (table (related Tag db')) = rows (table (related Tag with_indian)) ++ new ∧
    objects_filter 1 "Indian" (table (related Tag db')) = [mkRow 0 1 "Indian"] ∧
    mkRow 0 1 "Indian" ∈ m2m_all Tag (recipe_id recipe) db'.
Proof.
  assert (store_ok with_indian) as H1 by by_decision.
  assert (validated ["user"] pongal) as H2 by by_decision.
  assert (vd_names Tag pongal = Some ["Indian"; "Breakfast"]) as H3 by reflexivity.
  split_and!; [exact H1|exact H2|exact H3|].
  destruct (create_reuses_existing_rows Tag 1 pongal ["Indian"; "Breakfast"]
              with_indian H1 H2 H3) as (rcp & d & new & Hrun & Hrows & _ & _ & Hold & _).
  destruct (Hold "Indian" (mkRow 0 1 "Indian")) as [Hone Hlink].
  { apply list_elem_of_here. }
  { vm_compute. reflexivity. }
  exists rcp, d, new. split_and!; [exact Hrun|exact Hrows|exact Hone|exact Hlink].
Defined.

Lemma update_scalars_keeps_associations_witness :
  vd_tags patch_title = None ∧ vd_ingredients patch_title = None ∧
  ∃ instance' db',
    update 1 recipe0 patch_title with_recipes = Return instance' db' ∧
    db_tags db' = db_tags with_recipes ∧
    db_ingredients db' = db_ingredients with_recipes.
Proof.
  assert (vd_tags patch_title = None) as H1 by reflexivity.
  assert (vd_ingredients patch_title = None) as H2 by reflexivity.
  split_and!; [exact H1|exact H2|].
  destruct (update_scalars_keeps_associations 1 recipe0 patch_title with_recipes
              H1 H2) as (i & d & Hrun & HT & HI & _).
  exists i, d. split_and!; [exact Hrun|exact HT|exact HI].
Defined.

Lemma user_not_settable_witness :
  store_ok with_recipes ∧
  RecipeDetailSerializer.Meta_fields
    ∈ [RecipeSerializer.Meta_fields; RecipeDetailSerializer.Meta_fields] ∧
  ∃ instance' db',
    view_update accepts_all required_fields RecipeDetailSerializer.Meta_fields
      RecipeSerializer.Meta_read_only_fields true 1 0 body_user with_recipes
    = Return instance' db' ∧
    recipe_table db' !! 0 = Some (recipe_fields instance') ∧
    recipe_fields instance' !! "user" = Some (VUser 1).
Proof.
  assert (store_ok with_recipes) as H1 by by_decision.
  assert (RecipeDetailSerializer.Meta_fields
            ∈ [RecipeSerializer.Meta_fields; RecipeDetailSerializer.Meta_fields])
    as H2 by (apply list_elem_of_further, list_elem_of_here).
  split_and!; [exact H1|exact H2|].
  destruct (user_not_settable accepts_all required_fields
              RecipeDetailSerializer.Meta_fields true 1 0 body_user with_recipes
              H1 H2) as (_ & _ & Hupd & _).
  destruct (view_update accepts_all required_fields RecipeDetailSerializer.Meta_fields
              RecipeSerializer.Meta_read_only_fields true 1 0 body_user with_recipes)
    as [i d|e d] eqn:E.
  - exists i, d. destruct (Hupd i d eq_refl) as (f & _ & _ & Hrow & Huser).
    split_and!; [reflexivity|exact Hrow|exact Huser].
  - vm_compute in E. discriminate E.
Defined.

Lemma other_users_recipe_not_found_witness :
  recipe_table with_recipes !! 1 = Some (<["user" := VUser 2]> sample_fields) ∧
  <["user" := VUser 2]> sample_fields !! "user" ≠ Some (VUser 1) ∧
  view_retrieve 1 1 with_recipes = Raise Http404 with_recipes ∧
  view_update accepts_all required_fields RecipeDetailSerializer.Meta_fields
    RecipeSerializer.Meta_read_only_fields true 1 1 body_title with_recipes
  = Raise Http404 with_recipes ∧
  view_destroy 1 1 with_recipes = Raise Http404 with_recipes.
Proof.
  assert (recipe_table with_recipes !! 1
          = Some (<["user" := VUser 2]> sample_fields)) as H1
    by (vm_compute; reflexivity).
  assert (<["user" := VUser 2]> sample_fields !! "user" ≠ Some (VUser 1)) as H2
    by (vm_compute; discriminate).
  split_and!; [exact H1|exact H2|..];
    destruct (other_users_recipe_not_found accepts_all required_fields
                RecipeDetailSerializer.Meta_fields
                RecipeSerializer.Meta_read_only_fields true 1 1 body_title
                with_recipes _ H1 H2) as (Hr & Hu & Hd & _);
    [exact Hr|exact Hu|exact Hd].
Defined.

End Witnesses.

(** * Where a statement read entry by entry fails *)

Module Counterexamples.
Import Sample.

Lemma thai_twice_rows :
  rows (table (db_tags (final (create 1 thai_twice empty)))) = [mkRow 0 1 "Thai"].
Proof. vm_compute. reflexivity. Qed.

(** C6, read entry by entry: the list Thai, Thai has two entries, neither
    has a row of user 1 in the empty store, and the create appends one Tag
    row, not two. *)
Lemma create_repeated_name_one_row :
  let names := ["Thai"; "Thai"] in
  store_ok empty ∧ validated ["user"] thai_twice ∧
  vd_names Tag thai_twice = Some names ∧
  (∀ n, n ∈ names → objects_filter 1 n (table (related Tag empty)) = []) ∧
  ¬ ∃ recipe db' new,
      create 1 thai_twice empty = Return recipe db' ∧
      rows (table (related Tag db')) = rows (table (related Tag empty)) ++ new ∧
      length new = length names.
Proof.
  simpl. split_and!.
  - apply (bool_decide_unpack _). vm_compute. exact I.
  - apply (bool_decide_unpack _). vm_compute. exact I.
  - reflexivity.
  - intros n _. reflexivity.
  - intros (recipe & db' & new & Hrun & Hrows & Hlen).
    pose proof thai_twice_rows as E. rewrite Hrun in E. simpl in E, Hrows.
    rewrite E in Hrows. subst new. discriminate Hlen.
Qed.

End Counterexamples.

(** * Beyond well-formed stores: when the operations return *)

Lemma table_get_or_create_cases u n t :
  (objects_filter u n t = [] ∧
   table_get_or_create u n t = inr (table_create u n t)) ∨
  (∃ r, objects_filter u n t = [r] ∧ table_get_or_create u n t = inr (r, t)) ∨
  (2 ≤ length (objects_filter u n t) ∧
   table_get_or_create u n t = inl MultipleObjectsReturned).
Proof.
  unfold table_get_or_create.
  destruct (objects_filter u n t) as [|a [|b l]]; [by left|right; left|right; right].
  - by exists a.
  - split; [simpl; lia|done].
Qed.

Lemma objects_filter_create u n n' t :
  objects_filter u n' (table_create u n t).2 =
  objects_filter u n' t ++ (if decide (n' = n) then [mkRow (next_id t) u n] else []).
Proof.
  unfold objects_filter, table_create. simpl. rewrite filter_app. f_equal.
  destruct (decide (n' = n)) as [->|Hne].
  - by rewrite filter_cons_True.
  - rewrite filter_cons_False; [done|]. simpl. naive_solver.
Qed.

Lemma resolvable_create u n names t :
  objects_filter u n t = [] →
  resolvable u names (table_create u n t).2 ↔ resolvable u names t.
Proof.
  intros Hnone. unfold resolvable. rewrite !Forall_forall.
  split; intros H n' Hn'; specialize (H n' Hn');
    rewrite objects_filter_create, length_app in *;
    destruct (decide (n' = n)) as [->|]; simpl in *;
    rewrite ?Hnone in *; simpl in *; lia.
Qed.

Lemma appended_refl u names t : appended u names t t.
Proof. exists []. rewrite app_nil_r. simpl. split_and!; [done|lia|done|lia]. Qed.

Lemma linked_more_refl rid rel : linked_more rid rel rel.
Proof. split; [done|by left]. Qed.

(** The loop on any store: what it leaves, and when it returns. *)
Lemma get_or_create_all_outcome m u names instance db :
  ∃ rel',
    final (get_or_create_all m u names instance db) = set_related m rel' db ∧
    appended u names (table (related m db)) (table rel') ∧
    linked_more (recipe_id instance) (related m db) rel' ∧
    match get_or_create_all m u names instance db with
    | Return _ _ => resolvable u names (table (related m db))
    | Raise e _ =>
        e = MultipleObjectsReturned ∧ ¬ resolvable u names (table (related m db))
    end.
Proof.
  revert db. induction names as [|n names IH]; intros db.
  - exists (related m db). rewrite set_related_id.
    split_and!; [done|apply appended_refl|apply linked_more_refl|].
    simpl. apply Forall_nil_2.
  - rewrite get_or_create_all_cons.
    destruct (table_get_or_create_cases u n (table (related m db)))
      as [[Hnone E]|[(r & Hone & E)|[Htwo E]]].
    + rewrite (run_get_or_create_add _ _ _ _ _ _ _ E).
      set (rel1 := mkRelated _ _).
      destruct (IH (set_related m rel1 db))
        as (rel' & Hfin & (new & Hrows & Hnext & Hnew & Hlen) & [Hsub Hadd] & Hout).
      rewrite related_set_related in Hrows, Hnext, Hsub, Hadd, Hout.
      rewrite set_related_twice in Hfin. simpl in Hrows, Hnext, Hsub, Hadd.
      exists rel'. split_and!; [done| | |].
      * exists (mkRow (next_id (table (related m db))) u n :: new).
        rewrite Hrows, Hnext, <-(assoc_L (++)). simpl.
        split_and!; [done|lia| |lia].
        apply Forall_cons. split; [split; [done|set_solver]|].
        eapply Forall_impl; [exact Hnew|]. intros x [? ?]. set_solver.
      * split; [set_solver|]. intros p [Hp|Hp]%Hadd; [|by right].
        apply elem_of_union in Hp as [->%elem_of_singleton|Hp]; [by right|by left].
      * destruct (get_or_create_all m u names instance _) as [[] d|e d].
        -- apply Forall_cons. split; [rewrite Hnone; simpl; lia|].
           by apply (resolvable_create u n names _ Hnone).
        -- destruct Hout as [-> Hout]. split; [done|].
           intros [_ H]%Forall_cons. by apply Hout, resolvable_create.
    + rewrite (run_get_or_create_add _ _ _ _ _ _ _ E).
      set (rel1 := mkRelated _ _).
      destruct (IH (set_related m rel1 db))
        as (rel' & Hfin & (new & Hrows & Hnext & Hnew & Hlen) & [Hsub Hadd] & Hout).
      rewrite related_set_related in Hrows, Hnext, Hsub, Hadd, Hout.
      rewrite set_related_twice in Hfin. simpl in Hrows, Hnext, Hsub, Hadd, Hout.
      exists rel'. split_and!; [done| | |].
      * exists new. split_and!; [done|done| |simpl; lia].
        eapply Forall_impl; [exact Hnew|]. intros x [? ?]. set_solver.
      * split; [set_solver|]. intros p [Hp|Hp]%Hadd; [|by right].
        apply elem_of_union in Hp as [->%elem_of_singleton|Hp]; [by right|by left].
      * destruct (get_or_create_all m u names instance _) as [[] d|e d].
        -- apply Forall_cons. split; [rewrite Hone; simpl; lia|done].
        -- destruct Hout as [-> Hout]. split; [done|].
           by intros [_ H]%Forall_cons.
    + rewrite run_bind. unfold objects_get_or_create. rewrite E. simpl.
      exists (related m db). rewrite set_related_id.
      split; [done|]. split; [apply appended_refl|].
      split; [apply linked_more_refl|].
      split; [done|]. intros [H _]%Forall_cons. lia.
Qed.

Lemma table_ok_resolvable u names t : table_ok t → resolvable u names t.
Proof.
  intros Hok. apply Forall_forall. intros n _.
  destruct (objects_filter_unique u n t Hok) as [->|[r ->]]; simpl; lia.
Qed.

(** One guarded block of [update] on any store. *)
Lemma replace_related_outcome m u names instance db :
  ∃ rel',
    final (replace_related m u names instance db) = set_related m rel' db ∧
    appended u (default [] names) (table (related m db)) (table rel') ∧
    match names with
    | Some _ =>
        linked_more (recipe_id instance) (cleared (recipe_id instance) (related m db)) rel'
    | None => rel' = related m db
    end ∧
    match replace_related m u names instance db with
    | Return _ _ => resolvable u (default [] names) (table (related m db))
    | Raise e _ =>
        e = MultipleObjectsReturned ∧
        ¬ resolvable u (default [] names) (table (related m db))
    end.
Proof.
  destruct names as [names|]; simpl.
  - rewrite run_bind. unfold m2m_clear, modify.
    set (db1 := set_related m _ db).
    destruct (get_or_create_all_outcome m u names instance db1)
      as (rel' & Hfin & Happ & Hlinks & Hout).
    unfold db1 in *. rewrite related_set_related in Happ, Hlinks, Hout.
    rewrite set_related_twice in Hfin. by exists rel'.
  - exists (related m db). rewrite set_related_id.
    split_and!; [done|apply appended_refl|done|apply Forall_nil_2].
Qed.

(** [update] on any store. *)
Lemma update_outcome auth instance vd db :
  ∃ relT relI,
    appended auth (default [] (vd_tags vd)) (table (db_tags db)) (table relT) ∧
    appended auth (default [] (vd_ingredients vd))
      (table (db_ingredients db)) (table relI) ∧
    match vd_tags vd with
    | Some _ =>
        linked_more (recipe_id instance) (cleared (recipe_id instance) (db_tags db)) relT
    | None => relT = db_tags db
    end ∧
    match update auth instance vd db with
    | Return instance' db' =>
        instance' = mkRecipe (recipe_id instance)
                      (vd_fields vd ∪ recipe_fields instance) ∧
        db' = mkDB (<[recipe_id instance := recipe_fields instance']> (recipe_table db))
                (next_recipe_id db) relT relI ∧
        resolvable auth (default [] (vd_tags vd)) (table (db_tags db)) ∧
        resolvable auth (default [] (vd_ingredients vd)) (table (db_ingredients db))
    | Raise e db' =>
        e = MultipleObjectsReturned ∧
        db' = mkDB (recipe_table db) (next_recipe_id db) relT relI ∧
        ¬ (resolvable auth (default [] (vd_tags vd)) (table (db_tags db)) ∧
           resolvable auth (default [] (vd_ingredients vd))
             (table (db_ingredients db))) ∧
        (¬ resolvable auth (default [] (vd_tags vd)) (table (db_tags db)) →
         relI = db_ingredients db)
    end.
Proof.
  rewrite update_unfold, run_bind.
  destruct (replace_related_outcome Tag auth (vd_tags vd) instance db)
    as (relT & HfinT & HappT & HlinkT & HoutT).
  simpl in HappT, HlinkT, HoutT.
  destruct (replace_related Tag auth (vd_tags vd) instance db) as [[] dT|e dT];
    simpl in HfinT; subst dT.
  - rewrite run_bind.
    destruct (replace_related_outcome Ingredient auth (vd_ingredients vd) instance
                (set_related Tag relT db)) as (relI & HfinI & HappI & _ & HoutI).
    simpl in HappI, HoutI.
    destruct (replace_related Ingredient auth (vd_ingredients vd) instance _)
      as [[] dI|e dI]; simpl in HfinI; subst dI.
    + exists relT, relI. split_and!; [done..|].
      cbv zeta. rewrite run_bind. unfold save, modify. simpl.
      split_and!; [reflexivity|reflexivity|exact HoutT|exact HoutI].
    + destruct HoutI as [-> HoutI]. exists relT, relI.
      split; [done|]. split; [done|]. split; [done|].
      split_and!; [done|done|tauto|tauto].
  - destruct HoutT as [-> HoutT]. exists relT, (db_ingredients db).
    split; [done|]. split; [apply appended_refl|]. split; [done|].
    split_and!; [done|by destruct db|tauto|done].
Qed.

(** [create] on any store. *)
Lemma create_outcome auth vd db :
  ∃ relT relI,
    appended auth (default [] (vd_tags vd)) (table (db_tags db)) (table relT) ∧
    appended auth (default [] (vd_ingredients vd))
      (table (db_ingredients db)) (table relI) ∧
    linked_more (next_recipe_id db) (db_tags db) relT ∧
    linked_more (next_recipe_id db) (db_ingredients db) relI ∧
    final (create auth vd db) =
      mkDB (<[next_recipe_id db := vd_fields vd]> (recipe_table db))
        (S (next_recipe_id db)) relT relI ∧
    match create auth vd db with
    | Return recipe _ =>
        recipe = mkRecipe (next_recipe_id db) (vd_fields vd) ∧
        resolvable auth (default [] (vd_tags vd)) (table (db_tags db)) ∧
        resolvable auth (default [] (vd_ingredients vd)) (table (db_ingredients db))
    | Raise e _ =>
        e = MultipleObjectsReturned ∧
        ¬ (resolvable auth (default [] (vd_tags vd)) (table (db_tags db)) ∧
           resolvable auth (default [] (vd_ingredients vd))
             (table (db_ingredients db))) ∧
        (¬ resolvable auth (default [] (vd_tags vd)) (table (db_tags db)) →
         relI = db_ingredients db)
    end.
Proof.
  rewrite create_unfold, run_bind. unfold Recipe_objects_create.
  set (recipe := mkRecipe _ _). set (db1 := mkDB _ _ _ _). rewrite run_bind.
  destruct (get_or_create_all_outcome Tag auth (default [] (vd_tags vd)) recipe db1)
    as (relT & HfinT & HappT & HlinkT & HoutT).
  simpl in HappT, HlinkT, HoutT.
  destruct (get_or_create_all Tag auth _ recipe db1) as [[] dT|e dT];
    simpl in HfinT; subst dT.
  - rewrite run_bind.
    destruct (get_or_create_all_outcome Ingredient auth
                (default [] (vd_ingredients vd)) recipe (set_related Tag relT db1))
      as (relI & HfinI & HappI & HlinkI & HoutI).
    simpl in HappI, HlinkI, HoutI.
    destruct (get_or_create_all Ingredient auth _ recipe _) as [[] dI|e dI];
      simpl in HfinI; subst dI.
    + exists relT, relI. do 5 (split; [done|]). by split_and!.
    + destruct HoutI as [-> HoutI]. exists relT, relI. do 5 (split; [done|]).
      split_and!; [done|tauto|tauto].
  - destruct HoutT as [-> HoutT]. exists relT, (db_ingredients db).
    split; [done|]. split; [apply appended_refl|]. split; [done|].
    split; [apply linked_more_refl|]. split; [done|].
    split_and!; [done|tauto|done].
Qed.



(** X2.  An update that raises has written no attribute: the recipe table
    is as it was, since the attributes are set and saved after both lists.
    When it is the tags list that cannot be resolved, the ingredients and
    their links have not been touched either. *)
Theorem update_raise_writes_no_attribute auth instance vd db e db' :
  update auth instance vd db = Raise e db' →
  recipe_table db' = recipe_table db ∧
  next_recipe_id db' = next_recipe_id db ∧
  (¬ resolvable auth (default [] (vd_tags vd)) (table (db_tags db)) →
   db_ingredients db' = db_ingredients db).
Proof.
  intros Hrun.
  destruct (update_outcome auth instance vd db) as (relT & relI & _ & _ & _ & Hout).
  rewrite Hrun in Hout. destruct Hout as (_ & -> & _ & HI). simpl.
  split_and!; [done|done|]. intros Hno. by apply HI.
Qed.


Lemma objects_filter_appended u u' names n t t' :
  appended u names t t' → u' ≠ u → objects_filter u' n t' = objects_filter u' n t.
Proof.
  intros (new & Hrows & _ & Hnew & _) Hne.
  rewrite (objects_filter_app _ _ _ _ _ Hrows).
  rewrite <-(app_nil_r (objects_filter u' n t)) at 2. f_equal.
  clear Hrows. induction Hnew as [|r new [Hu _] _ IH]; [done|].
  rewrite filter_cons_False; [exact IH|]. naive_solver.
Qed.

(** X4.  Whatever the store and whether they return or raise, update and
    create only append to the tables of Tag and Ingredient, and only rows
    of the requesting user with a name of the list given for that model, at
    most one per entry of the list; the counter moves with them.  The rows
    that any other user has under any name are the same before and after. *)
Theorem operations_append_requesters_rows auth instance vd db m :
  let after_update := final (update auth instance vd db) in
  let after_create := final (create auth vd db) in
  appended auth (default [] (vd_names m vd))
    (table (related m db)) (table (related m after_update)) ∧
  appended auth (default [] (vd_names m vd))
    (table (related m db)) (table (related m after_create)) ∧
  (∀ u n, u ≠ auth →
     objects_filter u n (table (related m after_update))
     = objects_filter u n (table (related m db)) ∧
     objects_filter u n (table (related m after_create))
     = objects_filter u n (table (related m db))).
Proof.
  intros after_update after_create.
  assert (appended auth (default [] (vd_names m vd))
            (table (related m db)) (table (related m after_update))) as Hu.
  { unfold after_update.
    destruct (update_outcome auth instance vd db) as (relT & relI & HT & HI & _ & Hout).
    destruct (update auth instance vd db) as [i d|e d]; simpl.
    - destruct Hout as (_ & -> & _). by destruct m.
    - destruct Hout as (_ & -> & _). by destruct m. }
  assert (appended auth (default [] (vd_names m vd))
            (table (related m db)) (table (related m after_create))) as Hc.
  { unfold after_create.
    destruct (create_outcome auth vd db) as (relT & relI & HT & HI & _ & _ & -> & _).
    by destruct m. }
  split_and!; [done|done|]. intros u n Hne.
  split; by eapply objects_filter_appended.
Qed.

(** X5.  An update whose lists are empty returns on every store, also one
    on which a name could not be resolved: nothing is looked up.  It leaves
    both tables as they were, removes the links of this recipe from each
    model whose key is present and no other link. *)
Theorem update_clear_never_raises auth instance vd db :
  (∀ m, default [] (vd_names m vd) = []) →
  ∃ instance' db',
    update auth instance vd db = Return instance' db' ∧
    ∀ m, table (related m db') = table (related m db) ∧
         links (related m db') =
         match vd_names m vd with
         | Some _ => filter (λ p, p.1 ≠ recipe_id instance) (links (related m db))
         | None => links (related m db)
         end.
Proof.
  intros Hempty. pose proof (Hempty Tag) as HT. pose proof (Hempty Ingredient) as HI.
  simpl in HT, HI. rewrite update_unfold.
  destruct (vd_tags vd) as [tags|] eqn:ET, (vd_ingredients vd) as [ings|] eqn:EI;
    simpl in HT, HI; subst;
    eexists _, _;
    (split; [unfold replace_related, get_or_create_all, m2m_clear, save, modify,
               mbind, M_bind, mret, M_ret; simpl; reflexivity|]);
    intros []; simpl; rewrite ?ET, ?EI; done.
Qed.

(** * On well-formed stores: frames and repetition *)

Lemma filter_ext_elem {A} (P Q : A → Prop) `{∀ x, Decision (P x)}
    `{∀ x, Decision (Q x)} (l : list A) :
  (∀ x, x ∈ l → P x ↔ Q x) → filter P l = filter Q l.
Proof.
  induction l as [|a l IH]; intros Hext; [done|].
  assert (filter P l = filter Q l) as IH' by (apply IH; intros x Hx; apply Hext; set_solver).
  destruct (decide (P a)) as [HP|HP].
  - rewrite !filter_cons_True; [by rewrite IH'|by apply Hext; [set_solver|]|done].
  - rewrite !filter_cons_False; [done| |done].
    intros HQ. apply HP, Hext; [set_solver|done].
Qed.

Lemma filter_none {A} (P : A → Prop) `{∀ x, Decision (P x)} (l : list A) :
  (∀ x, x ∈ l → ¬ P x) → filter P l = [].
Proof.
  induction l as [|a l IH]; intros Hno; [done|].
  rewrite filter_cons_False by (apply Hno; set_solver).
  apply IH. intros x Hx. apply Hno. set_solver.
Qed.

Lemma table_eq t t' : rows t = rows t' → next_id t = next_id t' → t = t'.
Proof. destruct t, t'. simpl. by intros -> ->. Qed.

Lemma related_eq rel rel' : table rel = table rel' → links rel = links rel' → rel = rel'.
Proof. destruct rel, rel'. simpl. by intros -> ->. Qed.

Lemma db_eq db db' :
  recipe_table db = recipe_table db' → next_recipe_id db = next_recipe_id db' →
  (∀ m, related m db = related m db') → db = db'.
Proof.
  destruct db, db'. simpl. intros -> -> H.
  pose proof (H Tag) as HT. pose proof (H Ingredient) as HI. simpl in HT, HI.
  by rewrite HT, HI.
Qed.

Lemma appended_same_rows u names t t' :
  appended u names t t' → rows t' = rows t → t' = t.
Proof.
  intros (new & Hrows & Hnext & _) Heq. apply table_eq; [done|].
  rewrite Heq in Hrows. rewrite <-(app_nil_r (rows t)) in Hrows at 1.
  apply app_inv_head in Hrows as <-. simpl in Hnext. lia.
Qed.

(** When every name has a row already, the loop appends nothing. *)
Lemma resolved_no_new u names rid rel rel' :
  resolved u names rid rel rel' →
  (∀ n, n ∈ names → objects_filter u n (table rel) ≠ []) →
  rows (table rel') = rows (table rel).
Proof.
  intros (_ & _ & (new & Hrows & Hnew) & _) Hall.
  destruct new as [|r new]; [by rewrite app_nil_r in Hrows|].
  apply Forall_cons in Hnew as [(_ & Hn & Hnone & _) _]. by apply Hall in Hn.
Qed.

Lemma replaced_table_ok u names rid rel rel' :
  replaced u names rid rel rel' → table_ok (table rel) → table_ok (table rel').
Proof. destruct names; simpl; [by intros [? _]|by intros ->]. Qed.

(** [update] on a well-formed store: the facts of [update_run] together
    with what was appended. *)
Lemma update_run_full auth instance vd db :
  table_ok (table (db_tags db)) → table_ok (table (db_ingredients db)) →
  ∃ db',
    update auth instance vd db =
      Return (mkRecipe (recipe_id instance) (vd_fields vd ∪ recipe_fields instance)) db' ∧
    recipe_table db' =
      <[recipe_id instance := vd_fields vd ∪ recipe_fields instance]> (recipe_table db) ∧
    next_recipe_id db' = next_recipe_id db ∧
    ∀ m, replaced auth (vd_names m vd) (recipe_id instance) (related m db) (related m db') ∧
         appended auth (default [] (vd_names m vd))
           (table (related m db)) (table (related m db')).
Proof.
  intros HT HI.
  destruct (update_run auth instance vd db HT HI) as (db' & Hrun & Htab & Hnext & Hrel).
  destruct (update_outcome auth instance vd db) as (relT & relI & HaT & HaI & _ & Hout).
  rewrite Hrun in Hout. destruct Hout as (_ & -> & _).
  eexists. split; [done|]. split_and!; [done..|].
  intros m. split; [apply Hrel|]. by destruct m.
Qed.

Lemma create_run_full auth vd db :
  table_ok (table (db_tags db)) → table_ok (table (db_ingredients db)) →
  ∃ db',
    create auth vd db = Return (mkRecipe (next_recipe_id db) (vd_fields vd)) db' ∧
    recipe_table db' = <[next_recipe_id db := vd_fields vd]> (recipe_table db) ∧
    next_recipe_id db' = S (next_recipe_id db) ∧
    ∀ m, resolved auth (default [] (vd_names m vd)) (next_recipe_id db)
           (related m db) (related m db') ∧
         appended auth (default [] (vd_names m vd))
           (table (related m db)) (table (related m db')).
Proof.
  intros HT HI.
  destruct (create_run auth vd db HT HI) as (db' & Hrun & Htab & Hnext & Hrel).
  destruct (create_outcome auth vd db) as (relT & relI & HaT & HaI & _ & _ & Hfin & _).
  rewrite Hrun in Hfin. simpl in Hfin. subst db'.
  eexists. split; [done|]. split_and!; [done..|].
  intros m. split; [apply Hrel|]. by destruct m.
Qed.

(** X6.  On a well-formed store, an update or a create all of whose names
    for a model already have a row of the requesting user leaves the table
    of that model exactly as it was, rows and counter: tags and
    ingredients are shared between the recipes of a user, never copied. *)
Theorem existing_names_add_no_row (m : model) auth instance vd db :
  store_ok db →
  (∀ n, n ∈ default [] (vd_names m vd) →
        objects_filter auth n (table (related m db)) ≠ []) →
  (∃ instance' db',
     update auth instance vd db = Return instance' db' ∧
     table (related m db') = table (related m db)) ∧
  (∃ recipe db',
     create auth vd db = Return recipe db' ∧
     table (related m db') = table (related m db)).
Proof.
  intros Hok Hall. split.
  - destruct (update_run_full auth instance vd db) as (db' & Hrun & _ & _ & Hrel);
      [apply (store_ok_table Tag), Hok|apply (store_ok_table Ingredient), Hok|].
    eexists _, db'. split; [done|]. destruct (Hrel m) as [Hrep Happ].
    eapply appended_same_rows; [done|].
    unfold replaced in Hrep. destruct (vd_names m vd) as [names|]; [|by rewrite Hrep].
    by apply (resolved_no_new _ _ _ _ _ Hrep).
  - destruct (create_run_full auth vd db) as (db' & Hrun & _ & _ & Hrel);
      [apply (store_ok_table Tag), Hok|apply (store_ok_table Ingredient), Hok|].
    eexists _, db'. split; [done|]. destruct (Hrel m) as [Hres Happ].
    eapply appended_same_rows; [done|].
    by apply (resolved_no_new _ _ _ _ _ Hres).
Qed.

Lemma resolved_other_eq k u names rid rid' rel rel' :
  resolved u names rid rel rel' → related_ok k rel → rid' ≠ rid →
  filter (λ r, (rid', row_id r) ∈ links rel') (rows (table rel'))
  = filter (λ r, (rid', row_id r) ∈ links rel) (rows (table rel)).
Proof.
  intros (_ & _ & (new & Hrows & Hnew) & _ & Hlinks) [_ Hl] Hne.
  rewrite Hrows, filter_app.
  rewrite (filter_none _ new), app_nil_r.
  - apply filter_ext_elem. intros r _. rewrite Hlinks. split; [|by left].
    intros [?|(x & _ & _ & _ & ?)]; [done|by simplify_eq].
  - intros r Hr. rewrite Hlinks. intros [Hp|(x & _ & _ & _ & ?)]; [|by simplify_eq].
    rewrite Forall_forall in Hnew. destruct (Hnew r Hr) as (_ & _ & _ & Hid).
    apply Hl in Hp. simpl in Hp. lia.
Qed.

Lemma replaced_other_eq k u names rid rid' rel rel' :
  replaced u names rid rel rel' → related_ok k rel → rid' ≠ rid →
  filter (λ r, (rid', row_id r) ∈ links rel') (rows (table rel'))
  = filter (λ r, (rid', row_id r) ∈ links rel) (rows (table rel)).
Proof.
  destruct names as [names|]; simpl; [|by intros ->].
  intros Hres Hok Hne.
  rewrite (resolved_other_eq k _ _ _ _ _ _ Hres);
    [|by apply related_ok_cleared|done].
  simpl. apply list_filter_iff. intros r. rewrite elem_of_filter. simpl. tauto.
Qed.

(** X7.  On a well-formed store, an update changes the tags and the
    ingredients of no other recipe, and a create those of no recipe but the
    new one: for every other primary key the related rows are the same
    list before and after, also when recipes share rows. *)
Theorem other_recipes_keep_associations auth instance vd db :
  store_ok db →
  (∃ instance' db',
     update auth instance vd db = Return instance' db' ∧
     ∀ m rid, rid ≠ recipe_id instance → m2m_all m rid db' = m2m_all m rid db) ∧
  (∃ recipe db',
     create auth vd db = Return recipe db' ∧
     ∀ m rid, rid ≠ recipe_id recipe → m2m_all m rid db' = m2m_all m rid db).
Proof.
  intros Hok. split.
  - destruct (update_run auth instance vd db) as (db' & Hrun & _ & _ & Hrel);
      [apply (store_ok_table Tag), Hok|apply (store_ok_table Ingredient), Hok|].
    eexists _, db'. split; [done|]. intros m rid Hne. unfold m2m_all.
    eapply replaced_other_eq; [apply (Hrel m)|by apply store_ok_related|done].
  - destruct (create_run auth vd db) as (db' & Hrun & _ & _ & Hrel);
      [apply (store_ok_table Tag), Hok|apply (store_ok_table Ingredient), Hok|].
    eexists _, db'. split; [done|]. simpl. intros m rid Hne. unfold m2m_all.
    eapply resolved_other_eq; [apply (Hrel m)|by apply store_ok_related|done].
Qed.

(** Running a guarded block a second time changes nothing. *)
Lemma replaced_twice u names rid rel rel1 rel2 :
  replaced u names rid rel rel1 → replaced u names rid rel1 rel2 →
  appended u (default [] names) (table rel1) (table rel2) →
  rel2 = rel1.
Proof.
  destruct names as [names|]; simpl; [|by intros -> ->].
  intros H1 H2 Happ.
  assert (rows (table rel2) = rows (table rel1)) as Hrows.
  { apply (resolved_no_new _ _ _ _ _ H2). simpl. intros n Hn.
    destruct H1 as (_ & _ & _ & Hall & _).
    destruct (Hall n Hn) as (r & Hr & Hu & Hrn). intros Hnone.
    assert (r ∈ objects_filter u n (table rel1)) as Hin
      by by apply elem_of_objects_filter.
    rewrite Hnone in Hin. by apply not_elem_of_nil in Hin. }
  apply related_eq; [by eapply appended_same_rows|].
  destruct H1 as (_ & _ & _ & _ & Hl1), H2 as (_ & _ & _ & _ & Hl2).
  apply set_eq. intros p. rewrite Hl2, Hl1, Hrows. simpl.
  rewrite !elem_of_filter, Hl1. simpl. rewrite elem_of_filter.
  split.
  - intros [[Hne [[_ Hp]|(x & _ & _ & _ & ->)]]|H]; [left|done|by right].
    by split.
  - intros [[Hne Hp]|H]; [left|by right].
    split; [done|]. left. by split.
Qed.

(** X8.  On a well-formed store update is idempotent: giving the same
    validated data again, to the instance the update returned, returns the
    same instance and leaves the store exactly as the first update left
    it; no row is added and no link is lost. *)
Theorem update_idempotent auth instance vd db instance' db' :
  store_ok db →
  update auth instance vd db = Return instance' db' →
  update auth instance' vd db' = Return instance' db'.
Proof.
  intros Hok Hrun.
  destruct (update_run_full auth instance vd db) as (db1 & Hrun1 & Htab1 & Hnext1 & Hrel1);
    [apply (store_ok_table Tag), Hok|apply (store_ok_table Ingredient), Hok|].
  rewrite Hrun in Hrun1. injection Hrun1 as -> ->.
  destruct (update_run_full auth
              (mkRecipe (recipe_id instance) (vd_fields vd ∪ recipe_fields instance))
              vd db1) as (db2 & Hrun2 & Htab2 & Hnext2 & Hrel2).
  { destruct (Hrel1 Tag) as [H _]. eapply replaced_table_ok; [exact H|].
    apply (store_ok_table Tag), Hok. }
  { destruct (Hrel1 Ingredient) as [H _]. eapply replaced_table_ok; [exact H|].
    apply (store_ok_table Ingredient), Hok. }
  simpl in Hrun2, Htab2, Hrel2.
  assert (vd_fields vd ∪ (vd_fields vd ∪ recipe_fields instance)
          = vd_fields vd ∪ recipe_fields instance) as Hunion.
  { by rewrite (assoc_L (∪)), (idemp_L (∪)). }
  rewrite Hunion in Hrun2, Htab2. rewrite Hrun2. f_equal.
  apply db_eq.
  - by rewrite Htab2, Htab1, insert_insert_eq.
  - congruence.
  - intros m. destruct (Hrel1 m) as [H1 _], (Hrel2 m) as [H2 Ha2].
    by eapply replaced_twice.
Qed.

(** * The serializers' fields and the helper of the test suite *)


Lemma validated_no_user vd : validated [] vd → vd_fields vd !! "user" = None.
Proof.
  intros Hval. destruct (vd_fields vd !! "user") as [v|] eqn:E; [|done].
  assert ("user" ∈ dom (vd_fields vd)) as Hin by (apply elem_of_dom; by rewrite E).
  apply Hval, elem_of_list_to_set in Hin. exfalso. revert Hin.
  apply (bool_decide_unpack _). vm_compute. exact I.
Qed.

Section SerializerFacts.

Variable accepts : string → value → bool.
Variable required : list string.


(** X10.  The image serializer marks image required: a body without it,
    when the request is not partial, is a validation error and nothing is
    written.  Whatever it accepts, it hands on the image alone: no other
    attribute, no tags and no ingredients. *)
Theorem image_serializer_reads_image_only partial data db :
  (∀ f, f ∈ RecipeImageSerializer.Meta_extra_required → f ∈ required) →
  (data_fields data !! "image" = None →
   to_internal_value accepts required RecipeImageSerializer.Meta_fields
     RecipeImageSerializer.Meta_read_only_fields false data db
   = Raise ValidationError db) ∧
  (∀ vd db',
     to_internal_value accepts required RecipeImageSerializer.Meta_fields
       RecipeImageSerializer.Meta_read_only_fields partial data db
     = Return vd db' →
     vd_tags vd = None ∧ vd_ingredients vd = None ∧
     (∀ k, is_Some (vd_fields vd !! k) → k = "image") ∧
     vd_fields vd !! "image" = data_fields data !! "image").
Proof.
  intros Hreq. split.
  - intros Hnone. unfold to_internal_value.
    rewrite bool_decide_eq_true_2; [done|].
    intros Hnil.
    assert ("image" ∈ filter (λ f, f ∈ writable RecipeImageSerializer.Meta_fields
                                      RecipeImageSerializer.Meta_read_only_fields ∧
                                   data_fields data !! f = None) required) as Hin.
    { apply list_elem_of_filter. split_and!; [|done|].
      - apply (bool_decide_unpack _). vm_compute. exact I.
      - apply Hreq, list_elem_of_here. }
    rewrite Hnil in Hin. by apply not_elem_of_nil in Hin.
  - intros vd db'. unfold to_internal_value.
    destruct (negb partial && _); [done|]. destruct (bool_decide _); [|done].
    intros [= <- <-]. simpl.
    assert (∀ k, k ∈ writable RecipeImageSerializer.Meta_fields
                   RecipeImageSerializer.Meta_read_only_fields → k = "image") as Hw.
    { intros k Hk. vm_compute in Hk. by apply list_elem_of_singleton in Hk. }
    split_and!.
    + done.
    + done.
    + intros k [v [_ [Hk _]]%map_lookup_filter_Some]. by apply Hw.
    + destruct (data_fields data !! "image") as [v|] eqn:E.
      * apply map_lookup_filter_Some. split; [done|]. simpl. split.
        -- apply (bool_decide_unpack _). vm_compute. exact I.
        -- apply (bool_decide_unpack _). vm_compute. exact I.
      * apply map_lookup_filter_None. by left.
Qed.

End SerializerFacts.

Module TestHelperFacts.
Import TestHelpers.

Lemma create_recipe_some user params :
  validated [] (mkValidated None None params) →
  create_recipe user params
  = Some (Recipe_objects_create (<["user" := VUser user]> (params ∪ defaults))).
Proof.
  intros Hval%validated_no_user. simpl in Hval. unfold create_recipe. cbv zeta.
  destruct (decide _) as [[v Hv]|]; [|done].
  apply lookup_union_Some_raw in Hv as [Hv|[_ Hv]]; [congruence|].
  vm_compute in Hv. discriminate Hv.
Qed.

Lemma Recipe_objects_create_ok kwargs db :
  store_ok db →
  ∃ db',
    Recipe_objects_create kwargs db = Return (mkRecipe (next_recipe_id db) kwargs) db' ∧
    recipe_table db' = <[next_recipe_id db := kwargs]> (recipe_table db) ∧
    store_ok db' ∧
    ∀ m, related m db' = related m db ∧ m2m_all m (next_recipe_id db) db' = [].
Proof.
  intros Hok. eexists. split; [reflexivity|]. simpl. split_and!; [done| |].
  - destruct Hok as (Hr & HT & HI). split_and!; simpl.
    + apply map_Forall_insert_2; [lia|]. intros pk f Hpk. apply Hr in Hpk. lia.
    + eapply related_ok_mono; [done|lia].
    + eapply related_ok_mono; [done|lia].
  - intros m. split; [by destruct m|].
    unfold m2m_all. apply filter_none. intros r _.
    assert (related m (mkDB (<[next_recipe_id db:=kwargs]> (recipe_table db))
                         (S (next_recipe_id db)) (db_tags db) (db_ingredients db))
            = related m db) as -> by by destruct m.
    by apply store_ok_fresh.
Qed.

(** X11.  The helper create_recipe of the test suite, given parameters
    under attribute names of a recipe, stores a new recipe owned by the
    given user: a parameter overrides the default of its name, every other
    attribute has its default, the recipe has no tags and no ingredients,
    and the tables of Tag and Ingredient and all links are untouched.
    Parameters with the key user make the call itself fail. *)
Theorem create_recipe_fills_defaults user params db :
  (is_Some (params !! "user") → create_recipe user params = None) ∧
  (store_ok db → validated [] (mkValidated None None params) →
   ∃ c recipe db',
     create_recipe user params = Some c ∧
     c db = Return recipe db' ∧
     recipe_table db !! recipe_id recipe = None ∧
     loaded recipe db' ∧
     store_ok db' ∧
     recipe_fields recipe !! "user" = Some (VUser user) ∧
     (∀ k v, params !! k = Some v → recipe_fields recipe !! k = Some v) ∧
     (∀ k, k ≠ "user" → params !! k = None →
           recipe_fields recipe !! k = defaults !! k) ∧
     (∀ m, related m db' = related m db ∧ m2m_all m (recipe_id recipe) db' = [])).
Proof.
  split.
  - intros [v Hv]. unfold create_recipe. cbv zeta.
    rewrite decide_True; [done|]. exists v. by apply lookup_union_Some_l.
  - intros Hok Hval.
    destruct (Recipe_objects_create_ok
                (<["user" := VUser user]> (params ∪ defaults)) db Hok)
      as (db' & Hrun & Htab & Hok' & Hrel).
    eexists _, _, db'. split; [by apply create_recipe_some|].
    split; [exact Hrun|]. simpl. split_and!.
    + by apply store_ok_unused.
    + unfold loaded. simpl. by rewrite Htab, lookup_insert_eq.
    + done.
    + by rewrite lookup_insert_eq.
    + intros k v Hk. apply validated_no_user in Hval. simpl in Hval.
      rewrite lookup_insert_ne by (intros <-; congruence).
      by apply lookup_union_Some_l.
    + intros k Hne Hk. rewrite lookup_insert_ne by done. by rewrite lookup_union_r.
    + done.
Qed.

(** X12.  A recipe made by create_recipe and then updated by its owner
    with validated data keeps its owner; every attribute in the validated
    data has the new value, every other attribute the value create_recipe
    gave it; that is the stored row. *)
Theorem update_after_create_recipe user params vd db :
  store_ok db → validated [] (mkValidated None None params) → validated [] vd →
  ∃ c recipe db1 instance' db2,
    create_recipe user params = Some c ∧
    c db = Return recipe db1 ∧
    update user recipe vd db1 = Return instance' db2 ∧
    recipe_table db2 !! recipe_id recipe = Some (recipe_fields instance') ∧
    recipe_fields instance' !! "user" = Some (VUser user) ∧
    (∀ k v, vd_fields vd !! k = Some v → recipe_fields instance' !! k = Some v) ∧
    (∀ k, vd_fields vd !! k = None →
          recipe_fields instance' !! k = recipe_fields recipe !! k).
Proof.
  intros Hok Hparams Hvd.
  destruct (Recipe_objects_create_ok
              (<["user" := VUser user]> (params ∪ defaults)) db Hok)
    as (db1 & Hrun & Htab & Hok1 & Hrel).
  destruct (update_run user (mkRecipe (next_recipe_id db)
                               (<["user" := VUser user]> (params ∪ defaults)))
              vd db1) as (db2 & Hrun2 & Htab2 & _);
    [apply (store_ok_table Tag), Hok1|apply (store_ok_table Ingredient), Hok1|].
  eexists _, _, db1, _, db2. split; [by apply create_recipe_some|].
  split; [exact Hrun|]. split; [exact Hrun2|]. simpl in *. split_and!.
  - by rewrite Htab2, lookup_insert_eq.
  - rewrite lookup_union_r by by apply validated_no_user.
    by rewrite lookup_insert_eq.
  - intros k v Hk. by apply lookup_union_Some_l.
  - intros k Hk. by rewrite lookup_union_r.
Qed.

End TestHelperFacts.

(** * The further guarantees at work on the sample stores *)

Module MoreWitnesses.
Import Sample SampleMore.

Ltac by_decision := apply (bool_decide_unpack _); vm_compute; exact I.

Lemma update_raise_writes_no_attribute_witness :
  ∃ db',
    update 1 recipe0 patch_thai duplicates_with_recipe
    = Raise MultipleObjectsReturned db' ∧
    recipe_table db' = recipe_table duplicates_with_recipe.
Proof.
  destruct (update 1 recipe0 patch_thai duplicates_with_recipe) as [i d|e d] eqn:E.
  - vm_compute in E. discriminate E.
  - destruct (update_raise_writes_no_attribute 1 recipe0 patch_thai
                duplicates_with_recipe e d E) as (Htab & _ & _).
    exists d. split; [|exact Htab].
    vm_compute in E. injection E as <- _. reflexivity.
Defined.

Lemma update_clear_never_raises_witness :
  (∀ m, default [] (vd_names m patch_clear) = []) ∧
  ∃ instance' db',
    update 1 recipe0 patch_clear duplicates_with_recipe = Return instance' db' ∧
    links (related Tag db')
    = filter (λ p, p.1 ≠ 0) (links (related Tag duplicates_with_recipe)).
Proof.
  assert (∀ m, default [] (vd_names m patch_clear) = []) as H1
    by (intros []; reflexivity).
  split; [exact H1|].
  destruct (update_clear_never_raises 1 recipe0 patch_clear duplicates_with_recipe H1)
    as (i & d & Hrun & Hall).
  exists i, d. split; [exact Hrun|]. destruct (Hall Tag) as [_ Hl]. exact Hl.
Defined.

Lemma existing_names_add_no_row_witness :
  store_ok with_recipes ∧
  (∀ n, n ∈ default [] (vd_names Tag patch_breakfast_lunch) →
        objects_filter 1 n (table (related Tag with_recipes)) ≠ []) ∧
  ∃ instance' db',
    update 1 recipe0 patch_breakfast_lunch with_recipes = Return instance' db' ∧
    table (related Tag db') = table (related Tag with_recipes).
Proof.
  assert (store_ok with_recipes) as H1 by by_decision.
  assert (∀ n, n ∈ default [] (vd_names Tag patch_breakfast_lunch) →
            objects_filter 1 n (table (related Tag with_recipes)) ≠ []) as H2.
  { intros n Hn. simpl in Hn. apply elem_of_cons in Hn as [->|Hn].
    - vm_compute. discriminate.
    - apply list_elem_of_singleton in Hn as ->. vm_compute. discriminate. }
  split_and!; [exact H1|exact H2|].
  destruct (existing_names_add_no_row Tag 1 recipe0 patch_breakfast_lunch
              with_recipes H1 H2) as [(i & d & Hrun & Htab) _].
  exists i, d. split; [exact Hrun|exact Htab].
Defined.

Lemma other_recipes_keep_associations_witness :
  store_ok with_recipes ∧
  ∃ instance' db',
    update 1 recipe0 patch_lunch with_recipes = Return instance' db' ∧
    m2m_all Tag 1 db' = m2m_all Tag 1 with_recipes.
Proof.
  assert (store_ok with_recipes) as H1 by by_decision.
  split; [exact H1|].
  destruct (other_recipes_keep_associations 1 recipe0 patch_lunch with_recipes H1)
    as [(i & d & Hrun & Hother) _].
  exists i, d. split; [exact Hrun|]. apply Hother. simpl. lia.
Defined.

Lemma update_idempotent_witness :
  store_ok with_recipes ∧
  ∃ instance' db',
    update 1 recipe0 patch_both with_recipes = Return instance' db' ∧
    update 1 instance' patch_both db' = Return instance' db'.
Proof.
  assert (store_ok with_recipes) as H1 by by_decision.
  split; [exact H1|].
  destruct (update 1 recipe0 patch_both with_recipes) as [i d|e d] eqn:E.
  - exists i, d. split; [reflexivity|].
    exact (update_idempotent 1 recipe0 patch_both with_recipes i d H1 E).
  - vm_compute in E. discriminate E.
Defined.


Lemma image_serializer_reads_image_only_witness :
  (∀ f, f ∈ RecipeImageSerializer.Meta_extra_required → f ∈ ["image"]) ∧
  data_fields body_no_image !! "image" = None ∧
  to_internal_value accepts_all ["image"] RecipeImageSerializer.Meta_fields
    RecipeImageSerializer.Meta_read_only_fields false body_no_image with_recipes
  = Raise ValidationError with_recipes.
Proof.
  assert (∀ f, f ∈ RecipeImageSerializer.Meta_extra_required → f ∈ ["image"]) as H1
    by (intros f Hf; exact Hf).
  assert (data_fields body_no_image !! "image" = None) as H2
    by (vm_compute; reflexivity).
  split_and!; [exact H1|exact H2|].
  destruct (image_serializer_reads_image_only accepts_all ["image"] false
              body_no_image with_recipes H1) as [Hraise _].
  exact (Hraise H2).
Defined.

Lemma create_recipe_fills_defaults_witness :
  store_ok with_recipes ∧ validated [] (mkValidated None None params_title_link) ∧
  ∃ c recipe db',
    TestHelpers.create_recipe 1 params_title_link = Some c ∧
    c with_recipes = Return recipe db' ∧
    recipe_fields recipe !! "user" = Some (VUser 1) ∧
    recipe_fields recipe !! "title" = Some (VStr "Sample recipe title") ∧
    recipe_fields recipe !! "time_minutes" = Some (VInt 22).
Proof.
  assert (store_ok with_recipes) as H1 by by_decision.
  assert (validated [] (mkValidated None None params_title_link)) as H2 by by_decision.
  split_and!; [exact H1|exact H2|].
  destruct (TestHelperFacts.create_recipe_fills_defaults 1 params_title_link with_recipes)
    as [_ H].
  destruct (H H1 H2) as (c & r & d & Hc & Hrun & _ & _ & _ & Huser & Hpar & Hdef & _).
  exists c, r, d. split_and!; [exact Hc|exact Hrun|exact Huser| |].
  - apply Hpar. vm_compute. reflexivity.
  - rewrite Hdef; [vm_compute; reflexivity|discriminate|vm_compute; reflexivity].
Defined.

Lemma update_after_create_recipe_witness :
  store_ok with_recipes ∧ validated [] (mkValidated None None params_title_link) ∧
  validated [] patch_title ∧
  ∃ c recipe db1 instance' db2,
    TestHelpers.create_recipe 1 params_title_link = Some c ∧
    c with_recipes = Return recipe db1 ∧
    update 1 recipe patch_title db1 = Return instance' db2 ∧
    recipe_fields instance' !! "user" = Some (VUser 1) ∧
    recipe_fields instance' !! "title" = Some (VStr "New recipe title").
Proof.
  assert (store_ok with_recipes) as H1 by by_decision.
  assert (validated [] (mkValidated None None params_title_link)) as H2 by by_decision.
  assert (validated [] patch_title) as H3 by by_decision.
  split_and!; [exact H1|exact H2|exact H3|].
  destruct (TestHelperFacts.update_after_create_recipe 1 params_title_link patch_title
              with_recipes H1 H2 H3)
    as (c & r & d1 & i & d2 & Hc & Hrun & Hupd & _ & Huser & Hset & _).
  exists c, r, d1, i, d2. split_and!; [exact Hc|exact Hrun|exact Hupd|exact Huser|].
  apply Hset. vm_compute. reflexivity.
Defined.

End MoreWitnesses.
